(** * The universal renderer: validation and compilation of design specifications

    A shallow embedding of [backend/rendering/universal_renderer.py] (class
    [UniversalRenderer], given in COMPLETE_PRODUCT_ROADMAP_V2.md) and of the
    design-system value built by the plugin ([plugin/src/code.ts]).

    Python dictionaries used as look-up tables are [gmap]s, the sets that
    collect used names are [gset]s, a raised [ValueError] is the [Raise]
    branch of a small error monad, and the loops are recursions over the
    lists they iterate. *)

From Stdlib Require Import Ascii String.
From stdpp Require Import gmap strings list pretty.

Local Open Scope string_scope.

(** * Part I: the program *)

(** ** Values and exceptions *)

(** The JSON values a prop (or a token's [value] field) may hold.  A float
    is carried by the text Python prints for it, which is all the renderer
    does with one; [VOther] stands for [None], lists and dictionaries. *)
Inductive value :=
  | VStr (s : string)
  | VBool (b : bool)
  | VInt (n : Z)
  | VFloat (printed : string)
  | VOther (printed : string).

(** What an f-string writes for [{v}]. *)
Definition py_str (v : value) : string :=
  match v with
  | VStr s => s
  | VBool true => "True"
  | VBool false => "False"
  | VInt n => pretty n
  | VFloat printed => printed
  | VOther printed => printed
  end.

Inductive exception := ValueError (msg : string).

(** A call returns or raises. *)
Inductive result (A : Type) :=
  | Ok (a : A)
  | Raise (e : exception).
Arguments Ok {A} a.
Arguments Raise {A} e.

Global Instance result_ret : MRet result := λ A a, Ok a.
Global Instance result_bind : MBind result := λ A B f m,
  match m with
  | Ok a => f a
  | Raise e => Raise e
  end.

Definition succeeds {A} (r : result A) : Prop := ∃ a, r = Ok a.

(** ** The design system *)

(** A token as the plugin extracts it: colours carry a [value], text
    styles carry [fontFamily], [fontSize], ... and no [value]. *)
Record Token := {
  token_name : string;
  token_value : option value;
  token_fields : list (string * value)
}.

Record Component := {
  component_id : string;
  component_name : string;
  component_description : string;
  component_type : string
}.

(** [design_system['tokens']] is subscripted, so it is a field that is
    always there; its sub-collections and [components] are read with
    [.get(..., [])]. *)
Record DesignSystem := {
  ds_version : string;
  ds_lastUpdated : string;
  ds_tokens : gmap string (list Token);
  ds_components : option (list Component)
}.

(** ** Specification trees *)

(** [spec.get('props', {})], [spec.get('children', [])] and
    [spec.get('content', '')]: an absent field is the empty dictionary,
    the empty list, the empty string.  The props are kept in the order
    [props.items()] gives them. *)
#[local] Unset Elimination Schemes.
Inductive SpecNode := Spec {
  spec_type : string;
  spec_props : list (string * value);
  spec_children : list SpecNode;
  spec_content : string
}.
#[local] Set Elimination Schemes.

(** ** Strings *)

(** The double quote that attributes are written with, and the newline
    between the lines of the markup. *)
Definition dquote : string := String "034"%char EmptyString.
Definition newline : string := String "010"%char EmptyString.

(** ['/' in s] *)
Fixpoint contains_slash (s : string) : bool :=
  match s with
  | EmptyString => false
  | String c s' => if Ascii.eqb c "/"%char then true else contains_slash s'
  end.

(** [sep.join(parts)] *)
Fixpoint join (sep : string) (parts : list string) : string :=
  match parts with
  | [] => ""
  | [p] => p
  | p :: ps => p +:+ sep +:+ join sep ps
  end.

(** [s * n] *)
Fixpoint repeat_str (s : string) (n : nat) : string :=
  match n with
  | O => ""
  | S n' => s +:+ repeat_str s n'
  end.

(** ** The renderer *)

Definition _index_tokens (design_system : DesignSystem) : gmap string Token :=
  foldl (λ index token_type,
           foldl (λ index token, <[token_name token := token]> index)
                 index
                 (default [] (ds_tokens design_system !! token_type)))
        ∅ ["colors"; "typography"; "spacing"].

Definition _index_components (design_system : DesignSystem)
  : gmap string Component :=
  foldl (λ index component, <[component_name component := component]> index)
        ∅ (default [] (ds_components design_system)).

Record UniversalRenderer := {
  design_system : DesignSystem;
  tokens : gmap string Token;
  components : gmap string Component
}.

(** [UniversalRenderer(design_system)] *)
Definition new_renderer (ds : DesignSystem) : UniversalRenderer :=
  {| design_system := ds;
     tokens := _index_tokens ds;
     components := _index_components ds |}.

(** The dictionary that [render_design_specification] returns. *)
Record Rendered := {
  jsx : string;
  specification : SpecNode;
  tokens_used : list string;
  components_used : list string;
  valid : bool
}.

Section Renderer.
Variable self : UniversalRenderer.

Definition _is_token_reference (v : value) : bool :=
  match v with
  | VStr s => contains_slash s
  | _ => false
  end.

(** [value in self.tokens]: the keys are strings, nothing else is one. *)
Definition in_tokens (v : value) : bool :=
  match v with
  | VStr s => bool_decide (is_Some (tokens self !! s))
  | _ => false
  end.

Definition _component_exists (component_name : string) : bool :=
  bool_decide (is_Some (components self !! component_name)).

Definition _resolve_token (token_name : string) : result value :=
  match tokens self !! token_name with
  | Some token => Ok (default (VStr token_name) (token_value token))
  | None => Raise (ValueError ("Token '" +:+ token_name +:+ "' not found"))
  end.

(** The loop of [_resolve_props], [parts] being the list built so far. *)
Fixpoint _resolve_props_loop (props : list (string * value))
    (parts : list string) : result (list string) :=
  match props with
  | [] => Ok parts
  | (key, v) :: props' =>
      match v with
      | VStr s =>
          if _is_token_reference v then
            token_value ← _resolve_token s;
            _resolve_props_loop props'
              (parts ++ [key +:+ "=" +:+ dquote +:+ py_str token_value
                             +:+ dquote])
          else
            _resolve_props_loop props'
              (parts ++ [key +:+ "=" +:+ dquote +:+ s +:+ dquote])
      | VBool b =>
          if b then _resolve_props_loop props' (parts ++ [key])
          else _resolve_props_loop props' parts
      | VInt _ | VFloat _ =>
          _resolve_props_loop props' (parts ++ [key +:+ "=" +:+ py_str v])
      | VOther _ => _resolve_props_loop props' parts
      end
  end.

Definition _resolve_props (props : list (string * value)) : result string :=
  parts ← _resolve_props_loop props [];
  Ok (join " " parts).

(** [specification_to_jsx(spec, depth)]; the inner [fix] is the list
    comprehension over [children], run at [depth + 1]. *)
Fixpoint specification_to_jsx (spec : SpecNode) (depth : nat)
    : result string :=
  let component_type := spec_type spec in
  let props := spec_props spec in
  let children := spec_children spec in
  let content := spec_content spec in
  if negb (_component_exists component_type) then
    Raise (ValueError ("Component '" +:+ component_type +:+
                       "' not found in design system"))
  else
    jsx_props ← _resolve_props props;
    let indent := repeat_str "  " depth in
    match children with
    | _ :: _ =>
        lines ← (fix each (cs : list SpecNode) : result (list string) :=
                   match cs with
                   | [] => Ok []
                   | child :: cs' =>
                       line ← specification_to_jsx child (S depth);
                       lines ← each cs';
                       Ok (line :: lines)
                   end) children;
        let children_jsx := join newline lines in
        Ok (indent +:+ "<" +:+ component_type +:+ " " +:+ jsx_props +:+ ">"
            +:+ newline +:+ children_jsx +:+ newline
            +:+ indent +:+ "</" +:+ component_type +:+ ">")
    | [] =>
        if negb (String.eqb content "") then
          Ok (indent +:+ "<" +:+ component_type +:+ " " +:+ jsx_props +:+ ">"
              +:+ content +:+ "</" +:+ component_type +:+ ">")
        else
          Ok (indent +:+ "<" +:+ component_type +:+ " " +:+ jsx_props
              +:+ " />")
    end.

(** The list comprehension of [specification_to_jsx], by name. *)
Definition compile_children (depth : nat)
  : list SpecNode → result (list string) :=
  fix each (cs : list SpecNode) : result (list string) :=
    match cs with
    | [] => Ok []
    | child :: cs' =>
        line ← specification_to_jsx child depth;
        lines ← each cs';
        Ok (line :: lines)
    end.

(** The loop over [props.items()] in [validate_node]. *)
Fixpoint validate_props (props : list (string * value)) : result unit :=
  match props with
  | [] => Ok tt
  | (key, v) :: props' =>
      if _is_token_reference v then
        if negb (in_tokens v) then
          Raise (ValueError ("Token '" +:+ py_str v +:+
                             "' not found in design system"))
        else validate_props props'
      else validate_props props'
  end.

Fixpoint validate_node (node : SpecNode) : result unit :=
  let component_type := spec_type node in
  if negb (_component_exists component_type) then
    Raise (ValueError ("Component '" +:+ component_type +:+
                       "' not in design system"))
  else
    _ ← validate_props (spec_props node);
    (fix each (cs : list SpecNode) : result unit :=
       match cs with
       | [] => Ok tt
       | child :: cs' => _ ← validate_node child; each cs'
       end) (spec_children node).

(** The loop over [children] of [validate_node], by name. *)
Definition validate_children : list SpecNode → result unit :=
  fix each (cs : list SpecNode) : result unit :=
    match cs with
    | [] => Ok tt
    | child :: cs' => _ ← validate_node child; each cs'
    end.

Definition validate_specification (spec : SpecNode) : result bool :=
  _ ← validate_node spec;
  Ok true.

(** The body of the loop over [props.values()] in
    [extract_tokens_from_spec]: [tokens.add(value)] under its guard. *)
Definition add_token (acc : gset string) (v : value) : gset string :=
  if _is_token_reference v && in_tokens v then {[py_str v]} ∪ acc else acc.

(** [extract_from_node] of [extract_tokens_from_spec]; the set [tokens]
    that the closure adds to is passed along. *)
Fixpoint extract_tokens_from_node (node : SpecNode) (acc : gset string)
    : gset string :=
  let acc := foldl add_token acc (spec_props node).*2 in
  (fix each (cs : list SpecNode) (acc : gset string) : gset string :=
     match cs with
     | [] => acc
     | child :: cs' => each cs' (extract_tokens_from_node child acc)
     end) (spec_children node) acc.

Definition extract_tokens_children
  : list SpecNode → gset string → gset string :=
  fix each (cs : list SpecNode) (acc : gset string) : gset string :=
    match cs with
    | [] => acc
    | child :: cs' => each cs' (extract_tokens_from_node child acc)
    end.

(** [list(tokens)]: the elements of the set, in some order. *)
Definition extract_tokens_from_spec (spec : SpecNode) : list string :=
  elements (extract_tokens_from_node spec ∅).

(** [extract_from_node] of [extract_components_from_spec]; a type that is
    empty is falsy and is not added. *)
Fixpoint extract_components_from_node (node : SpecNode) (acc : gset string)
    : gset string :=
  let component_type := spec_type node in
  let acc :=
    if negb (String.eqb component_type "")
       && _component_exists component_type
    then {[component_type]} ∪ acc else acc in
  (fix each (cs : list SpecNode) (acc : gset string) : gset string :=
     match cs with
     | [] => acc
     | child :: cs' => each cs' (extract_components_from_node child acc)
     end) (spec_children node) acc.

Definition extract_components_children
  : list SpecNode → gset string → gset string :=
  fix each (cs : list SpecNode) (acc : gset string) : gset string :=
    match cs with
    | [] => acc
    | child :: cs' => each cs' (extract_components_from_node child acc)
    end.

Definition extract_components_from_spec (spec : SpecNode) : list string :=
  elements (extract_components_from_node spec ∅).

Definition render_design_specification (spec : SpecNode) : result Rendered :=
  _ ← validate_specification spec;
  jsx_code ← specification_to_jsx spec 0;
  let used_tokens := extract_tokens_from_spec spec in
  let used_components := extract_components_from_spec spec in
  Ok {| jsx := jsx_code;
        specification := spec;
        tokens_used := used_tokens;
        components_used := used_components;
        valid := true |}.

End Renderer.

(** ** A design system and some trees *)

Definition primary_500 : Token :=
  {| token_name := "primary/500";
     token_value := Some (VStr "#3B82F6");
     token_fields := [("description", VStr "")] |}.

Definition heading_1 : Token :=
  {| token_name := "Heading/H1";
     token_value := None;
     token_fields := [("fontFamily", VStr "Inter"); ("fontSize", VInt 32)] |}.

Definition component_named (name : string) : Component :=
  {| component_id := "1:2";
     component_name := name;
     component_description := "";
     component_type := "COMPONENT" |}.

Definition example_ds : DesignSystem :=
  {| ds_version := "1.0.0";
     ds_lastUpdated := "2026-01-01T00:00:00.000Z";
     ds_tokens := {[ "colors" := [primary_500];
                     "typography" := [heading_1];
                     "spacing" := [] ]};
     ds_components := Some [component_named "Button";
                            component_named "Container";
                            component_named "Text"] |}.

Definition example_renderer : UniversalRenderer := new_renderer example_ds.

Definition button_go : SpecNode :=
  Spec "Button" [("backgroundColor", VStr "primary/500")] [] "Go".

Definition container_hi : SpecNode :=
  Spec "Container" [] [Spec "Text" [] [] "Hi"] "".

Definition container_with_both : SpecNode :=
  Spec "Container" [] [Spec "Text" [] [] "Hi"] "left out".

Definition toggle_accent : SpecNode :=
  Spec "Toggle" [("backgroundColor", VStr "accent/900")] [] "".

Definition button_accent : SpecNode :=
  Spec "Button" [("backgroundColor", VStr "accent/900")] [] "".

Definition text_accent : SpecNode := Spec "Text" [] [] "accent/900".

(** * Part II: what the claims speak of *)

(** ** The traversal, stated independently of the renderer *)

(** The nodes of a tree, a node before its children, children in order. *)
Fixpoint nodes (spec : SpecNode) : list SpecNode :=
  spec :: (spec_children spec ≫= nodes).

(** What a traversal looks up: a component name, or a prop value that has
    the shape of a token reference. *)
Inductive check :=
  | CheckComponent (name : string)
  | CheckToken (v : value).

Definition token_checks (props : list (string * value)) : list check :=
  CheckToken <$> filter (λ v, _is_token_reference v = true) props.*2.

(** The look-ups of a traversal in the order it makes them: the node's
    type, its props in order, then each child in turn. *)
Fixpoint checks (spec : SpecNode) : list check :=
  CheckComponent (spec_type spec)
    :: token_checks (spec_props spec) ++ (spec_children spec ≫= checks).

Definition check_fails (self : UniversalRenderer) (c : check) : bool :=
  match c with
  | CheckComponent name => bool_decide (components self !! name = None)
  | CheckToken (VStr s) => bool_decide (tokens self !! s = None)
  | CheckToken _ => true
  end.

(** The first look-up that fails, if one does. *)
Definition first_failure (self : UniversalRenderer) (spec : SpecNode)
  : option check :=
  find (check_fails self) (checks spec).

Definition validation_error (c : check) : exception :=
  match c with
  | CheckComponent name =>
      ValueError ("Component '" +:+ name +:+ "' not in design system")
  | CheckToken v =>
      ValueError ("Token '" +:+ py_str v +:+ "' not found in design system")
  end.

Definition compilation_error (c : check) : exception :=
  match c with
  | CheckComponent name =>
      ValueError ("Component '" +:+ name +:+ "' not found in design system")
  | CheckToken v =>
      ValueError ("Token '" +:+ py_str v +:+ "' not found")
  end.

(** Every type is a component and every token-shaped prop value a token. *)
Definition well_formed (self : UniversalRenderer) (spec : SpecNode) : Prop :=
  (∀ node, node ∈ nodes spec → is_Some (components self !! spec_type node)) ∧
  (∀ node key s, node ∈ nodes spec → (key, VStr s) ∈ spec_props node →
     contains_slash s = true → is_Some (tokens self !! s)).

(** A token name that a prop of some node refers to. *)
Definition references_token (spec : SpecNode) (name : string) : Prop :=
  ∃ node key, node ∈ nodes spec ∧ (key, VStr name) ∈ spec_props node
              ∧ contains_slash name = true.

(** A component type that some node has. *)
Definition has_component_type (spec : SpecNode) (name : string) : Prop :=
  ∃ node, node ∈ nodes spec ∧ spec_type node = name.

(** The tree without the props whose value is not shaped like a token
    reference. *)
Fixpoint drop_literal_props (spec : SpecNode) : SpecNode :=
  Spec (spec_type spec)
       (filter (λ prop, _is_token_reference prop.2 = true) (spec_props spec))
       (drop_literal_props <$> spec_children spec)
       (spec_content spec).

(** The tree with every [content] removed. *)
Fixpoint erase_content (spec : SpecNode) : SpecNode :=
  Spec (spec_type spec) (spec_props spec)
       (erase_content <$> spec_children spec) "".

(** ** The markup *)

Definition opening_tag (ty attrs : string) : string :=
  "<" +:+ ty +:+ " " +:+ attrs +:+ ">".
Definition closing_tag (ty : string) : string := "</" +:+ ty +:+ ">".
Definition self_closing_tag (ty attrs : string) : string :=
  "<" +:+ ty +:+ " " +:+ attrs +:+ " />".

(** The attribute written for one prop, if one is written: a string is
    quoted (a token reference after it is replaced by the token's [value],
    or kept as the name when the token has no [value]), a number is
    written bare, [True] leaves the bare key, and [False], [None], lists
    and dictionaries leave nothing. *)
Definition emitted_attribute (self : UniversalRenderer)
    (prop : string * value) : list string :=
  let (key, v) := prop in
  match v with
  | VStr s =>
      if contains_slash s then
        match tokens self !! s with
        | Some token =>
            [key +:+ "=" +:+ dquote
                 +:+ py_str (default (VStr s) (token_value token)) +:+ dquote]
        | None => []
        end
      else [key +:+ "=" +:+ dquote +:+ s +:+ dquote]
  | VBool true => [key]
  | VInt n => [key +:+ "=" +:+ pretty n]
  | VFloat printed => [key +:+ "=" +:+ printed]
  | VBool false | VOther _ => []
  end.

(** ** The indices *)

Definition token_collection (ds : DesignSystem) (token_type : string)
  : list Token :=
  default [] (ds_tokens ds !! token_type).

(** The tokens of a design system in the order they are enumerated. *)
Definition all_tokens (ds : DesignSystem) : list Token :=
  (token_collection ds "colors" ++ token_collection ds "typography"
    ++ token_collection ds "spacing")%list.

(** The last record of [records] that is named [name]. *)
Definition last_named {A} (name_of : A → string) (name : string)
    (records : list A) : option A :=
  last (filter (λ r, name_of r = name) records).

(** A design system with one name on three tokens. *)
Definition duplicates_ds : DesignSystem :=
  {| ds_version := "1.0.0";
     ds_lastUpdated := "";
     ds_tokens :=
       {[ "spacing" := [ {| token_name := "base";
                            token_value := Some (VInt 8);
                            token_fields := [] |} ];
          "colors" := [ {| token_name := "base";
                           token_value := Some (VStr "#000000");
                           token_fields := [] |};
                        {| token_name := "base";
                           token_value := Some (VStr "#FFFFFF");
                           token_fields := [] |} ] ]};
     ds_components := None |}.

(** ** Trees with other prop keys *)


(** The nodes of a tree with the depth each is compiled at, the tree
    itself being compiled at [depth]. *)
Fixpoint nodes_at (spec : SpecNode) (depth : nat) : list (SpecNode * nat) :=
  (spec, depth) :: (spec_children spec ≫= λ child, nodes_at child (S depth)).

(** [part] occurs in [whole]. *)
Definition occurs_in (part whole : string) : Prop :=
  ∃ before after, whole = before +:+ part +:+ after.

(** * Part II-b: the sandbox agent

    [backend/agents/sandbox_agent.py], class [SandboxAgent]: the caller of
    the renderer.  The language model and the JSON decoder are outside the
    repository and are taken as parameters. *)

(** What the agent can raise: a [KeyError] of a subscript, whatever the
    model call or the decoder raises, and the renderer's exceptions. *)
Inductive agent_exception :=
  | KeyError (key : string)
  | External (msg : string)
  | Renderer (e : exception).

Inductive outcome (A : Type) :=
  | Return (a : A)
  | Throw (e : agent_exception).
Arguments Return {A} a.
Arguments Throw {A} e.

Global Instance outcome_ret : MRet outcome := λ A a, Return a.
Global Instance outcome_bind : MBind outcome := λ A B f m,
  match m with
  | Return a => f a
  | Throw e => Throw e
  end.

(** A call into the renderer from the agent. *)
Definition from_renderer {A} (r : result A) : outcome A :=
  match r with
  | Ok a => Return a
  | Raise e => Throw (Renderer e)
  end.

(** The entries of a token seen as a dictionary: [name], [value] when
    there is one, and the other fields. *)
Definition token_get (t : Token) (key : string) : option value :=
  if decide (key = "name") then Some (VStr (token_name t))
  else if decide (key = "value") then token_value t
  else (list_to_map (token_fields t) : gmap string value) !! key.

(** [t[key]] *)
Definition subscript (t : Token) (key : string) : outcome value :=
  match token_get t key with
  | Some v => Return v
  | None => Throw (KeyError key)
  end.

(** A token that has what the line of a colour, of a text style, reads. *)
Definition has_value (t : Token) : Prop := is_Some (token_get t "value").

Definition has_font (t : Token) : Prop :=
  is_Some (token_get t "fontFamily") ∧ is_Some (token_get t "fontSize")
  ∧ is_Some (token_get t "fontWeight").

(** The line of one colour, of one text style, of one component. *)
Definition color_line (t : Token) : outcome string :=
  name ← subscript t "name";
  v ← subscript t "value";
  Return ("  - " +:+ py_str name +:+ ": " +:+ py_str v).

Definition typography_line (t : Token) : outcome string :=
  name ← subscript t "name";
  fontFamily ← subscript t "fontFamily";
  fontSize ← subscript t "fontSize";
  fontWeight ← subscript t "fontWeight";
  Return ("  - " +:+ py_str name +:+ ": " +:+ py_str fontFamily +:+ " "
          +:+ py_str fontSize +:+ "px " +:+ py_str fontWeight).

Definition component_line (c : Component) : outcome string :=
  Return ("  - " +:+ component_name c).

Definition _format_design_system_for_llm (design_system : DesignSystem)
  : outcome string :=
  let parts : list string := [] in
  colors ← mapM color_line (default [] (ds_tokens design_system !! "colors"));
  let colors_str := join newline colors in
  let parts := (parts ++ ["COLORS:" +:+ newline +:+ colors_str])%list in
  typo ← mapM typography_line
            (default [] (ds_tokens design_system !! "typography"));
  let typo_str := join newline typo in
  let parts := (parts ++ ["TYPOGRAPHY:" +:+ newline +:+ typo_str])%list in
  comp ← mapM component_line (default [] (ds_components design_system));
  let comp_str := join newline comp in
  let parts := (parts ++ ["COMPONENTS:" +:+ newline +:+ comp_str])%list in
  Return (join (newline +:+ newline) parts).

Definition quoted (s : string) : string := dquote +:+ s +:+ dquote.

(** The f-string [constraint_prompt] of [generate_screen]. *)
Definition constraint_prompt (ds_context prompt : string) : string :=
  join newline
    [ "";
      "You are a UI designer that ONLY uses the provided design system.";
      "You MUST use ONLY tokens and components from this design system.";
      "You CANNOT create custom colors, fonts, spacing, or components.";
      "";
      "DESIGN SYSTEM:";
      ds_context;
      "";
      "USER REQUEST:";
      prompt;
      "";
      "Generate a JSON specification for a screen that:";
      "1. Uses ONLY colors from the design system";
      "2. Uses ONLY typography from the design system";
      "3. Uses ONLY components from the design system";
      "4. Uses ONLY spacing values from the design system";
      "5. Is responsive and accessible";
      "6. Matches the user's request";
      "";
      "Return ONLY valid JSON, no other text.";
      "";
      "JSON Schema:";
      "{";
      "  " +:+ quoted "type" +:+ ": " +:+ quoted "Container" +:+ ",";
      "  " +:+ quoted "props" +:+ ": {" +:+ quoted "background" +:+ ": "
           +:+ quoted "color-token-or-value" +:+ "},";
      "  " +:+ quoted "children" +:+ ": [";
      "    {";
      "      " +:+ quoted "type" +:+ ": " +:+ quoted "ComponentName" +:+ ",";
      "      " +:+ quoted "props" +:+ ": {" +:+ quoted "variant" +:+ ": "
               +:+ quoted "primary" +:+ "},";
      "      " +:+ quoted "content" +:+ ": " +:+ quoted "Text content";
      "    }";
      "  ]";
      "}";
      "" ].

Record SandboxAgent := {
  agent_design_system : DesignSystem;
  agent_renderer : UniversalRenderer
}.

(** [SandboxAgent(design_system)] *)
Definition new_agent (ds : DesignSystem) : SandboxAgent :=
  {| agent_design_system := ds; agent_renderer := new_renderer ds |}.

(** The dictionary that [generate_screen] returns. *)
Record Generated := {
  gen_status : string;
  gen_design : SpecNode;
  gen_code : string;
  gen_tokens_used : list string;
  gen_components_used : list string;
  gen_prompt : string
}.

Section Agent.
(** [await self.llm.apredict(...)], and [json.loads(response.strip())]
    read as a specification tree. *)
Variable llm_apredict : string → outcome string.
Variable json_loads : string → outcome SpecNode.

Definition generate_screen (self : SandboxAgent) (prompt : string)
  : outcome Generated :=
  ds_context ← _format_design_system_for_llm (agent_design_system self);
  response ← llm_apredict (constraint_prompt ds_context prompt);
  design_spec ← json_loads response;
  _ ← from_renderer (validate_specification (agent_renderer self) design_spec);
  rendered ← from_renderer
               (render_design_specification (agent_renderer self) design_spec);
  Return {| gen_status := "success";
            gen_design := design_spec;
            gen_code := jsx rendered;
            gen_tokens_used := tokens_used rendered;
            gen_components_used := components_used rendered;
            gen_prompt := prompt |}.

End Agent.

(** ** More data *)

(** A colour whose name has no ['/'] in it. *)
Definition brand : Token :=
  {| token_name := "Brand";
     token_value := Some (VStr "#FF0000");
     token_fields := [] |}.

Definition text_style (name : string) : Token :=
  {| token_name := name;
     token_value := None;
     token_fields := [("fontFamily", VStr "Inter"); ("fontSize", VInt 32);
                      ("fontWeight", VStr "Bold");
                      ("lineHeight", VStr "auto")] |}.

Definition plugin_ds : DesignSystem :=
  {| ds_version := "1.0.0";
     ds_lastUpdated := "2026-01-01T00:00:00.000Z";
     ds_tokens := {[ "colors" := [primary_500; brand];
                     "typography" := [text_style "Heading/H1"];
                     "spacing" := [] ]};
     ds_components := Some [component_named "Button";
                            component_named "Container";
                            component_named "Text"] |}.

(** The example design system with one more colour and one more
    component. *)
Definition larger_ds : DesignSystem :=
  {| ds_version := "1.0.1";
     ds_lastUpdated := "2026-01-02T00:00:00.000Z";
     ds_tokens := {[ "colors" := [primary_500; brand];
                     "typography" := [heading_1];
                     "spacing" := [] ]};
     ds_components := Some [component_named "Button";
                            component_named "Container";
                            component_named "Text";
                            component_named "Input"] |}.

Definition no_components_ds : DesignSystem :=
  {| ds_version := "1.0.0";
     ds_lastUpdated := "";
     ds_tokens := {[ "colors" := [primary_500] ]};
     ds_components := None |}.

Definition page : SpecNode :=
  Spec "Container" [("background", VStr "primary/500")]
       [button_go; Spec "Text" [("color", VStr "primary/500")] [] "Hi"] "".

(** * Part III: lemmas *)

(** ** Induction on specification trees *)

Lemma SpecNode_ind (P : SpecNode → Prop) :
  (∀ ty props children content,
      Forall P children → P (Spec ty props children content)) →
  ∀ spec, P spec.
Proof.
  intros step. fix IH 1. intros [ty props children content].
  apply step. induction children as [|child children IHc]; constructor.
  - apply IH.
  - exact IHc.
Qed.

Lemma find_app {A} (f : A → bool) (l1 l2 : list A) :
  find f (l1 ++ l2) = match find f l1 with
                      | Some x => Some x
                      | None => find f l2
                      end.
Proof. induction l1 as [|x l1 IH]; simpl; [done|]. by destruct (f x). Qed.

Global Instance string_app_assoc : Assoc (=) String.app.
Proof.
  intros s1 s2 s3. induction s1 as [|c s1 IH]; [done|].
  change (String c (s1 +:+ s2 +:+ s3) = String c ((s1 +:+ s2) +:+ s3)).
  by rewrite IH.
Qed.

Lemma is_Some_None_decide {A} (o : option A) :
  bool_decide (is_Some o) = negb (bool_decide (o = None)).
Proof. destruct o; by compute. Qed.

(** ** Validation follows the traversal *)

Section Validation.
Variable self : UniversalRenderer.

Lemma token_checks_cons key v props :
  token_checks ((key, v) :: props) =
    if _is_token_reference v then CheckToken v :: token_checks props
    else token_checks props.
Proof.
  unfold token_checks. cbn [fmap list_fmap snd]. rewrite filter_cons.
  destruct (_is_token_reference v); by case_decide.
Qed.

Lemma in_tokens_fails v :
  _is_token_reference v = true →
  in_tokens self v = negb (check_fails self (CheckToken v)).
Proof.
  destruct v; try discriminate. intros _. cbn.
  by rewrite is_Some_None_decide.
Qed.

Lemma _component_exists_fails name :
  _component_exists self name = negb (check_fails self (CheckComponent name)).
Proof. apply is_Some_None_decide. Qed.

Lemma validate_props_checks props :
  validate_props self props =
    match find (check_fails self) (token_checks props) with
    | Some c => Raise (validation_error c)
    | None => Ok tt
    end.
Proof.
  induction props as [|[key v] props IH]; [done|].
  rewrite token_checks_cons. cbn [validate_props].
  destruct (_is_token_reference v) eqn:Href; [|done].
  rewrite (in_tokens_fails _ Href). cbn [find].
  by destruct (check_fails self (CheckToken v)).
Qed.

Lemma validate_node_eq node :
  validate_node self node =
    if negb (_component_exists self (spec_type node)) then
      Raise (validation_error (CheckComponent (spec_type node)))
    else
      _ ← validate_props self (spec_props node);
      validate_children self (spec_children node).
Proof. by destruct node. Qed.

Lemma validate_node_checks node :
  validate_node self node =
    match first_failure self node with
    | Some c => Raise (validation_error c)
    | None => Ok tt
    end.
Proof.
  unfold first_failure.
  induction node as [ty props children content IH] using SpecNode_ind.
  rewrite validate_node_eq. cbn [checks spec_type spec_props spec_children find].
  rewrite _component_exists_fails, negb_involutive.
  destruct (check_fails self (CheckComponent ty)); [done|].
  rewrite find_app, validate_props_checks.
  destruct (find _ (token_checks props)); [done|]. cbn [mbind result_bind].
  induction IH as [|child children Hchild _ IHchildren]; [done|].
  cbn [validate_children mbind list_bind]. rewrite find_app, Hchild.
  destruct (find _ (checks child)); [done|]. exact IHchildren.
Qed.

End Validation.

(** ** What the traversal looks up *)

Lemma elem_of_token_checks c props :
  c ∈ token_checks props ↔
    ∃ key s, (key, VStr s) ∈ props ∧ contains_slash s = true
             ∧ c = CheckToken (VStr s).
Proof.
  unfold token_checks. rewrite list_elem_of_fmap. split.
  - intros (v & -> & [Href Hin]%list_elem_of_filter).
    apply list_elem_of_fmap in Hin as ([key v'] & -> & Hin).
    destruct v' as [s| | | |]; try discriminate. by exists key, s.
  - intros (key & s & Hin & Hslash & ->). exists (VStr s). split; [done|].
    apply list_elem_of_filter. split; [done|].
    apply list_elem_of_fmap. by exists (key, VStr s).
Qed.

Lemma nodes_eq spec :
  nodes spec = spec :: (spec_children spec ≫= nodes).
Proof. by destruct spec. Qed.

Lemma checks_eq spec :
  checks spec =
    CheckComponent (spec_type spec)
      :: token_checks (spec_props spec) ++ (spec_children spec ≫= checks).
Proof. by destruct spec. Qed.

Lemma elem_of_checks c spec :
  c ∈ checks spec ↔
    ∃ node, node ∈ nodes spec ∧
      (c = CheckComponent (spec_type node) ∨ c ∈ token_checks (spec_props node)).
Proof.
  induction spec as [ty props children content IH] using SpecNode_ind.
  rewrite checks_eq, nodes_eq. cbn [spec_type spec_props spec_children].
  rewrite elem_of_cons, elem_of_app, list_elem_of_bind. split.
  - intros [->|[Hin|(child & Hc & Hchild)]].
    + eexists. split; [apply list_elem_of_here|]. by left.
    + eexists. split; [apply list_elem_of_here|]. by right.
    + rewrite Forall_forall in IH. apply (IH _ Hchild) in Hc as (node & Hn & Hc).
      exists node. split; [|done]. apply list_elem_of_further, list_elem_of_bind.
      by exists child.
  - intros (node & Hn & Hc). apply elem_of_cons in Hn as [->|Hn].
    + destruct Hc; auto.
    + apply list_elem_of_bind in Hn as (child & Hn & Hchild).
      right; right. exists child. split; [|done].
      rewrite Forall_forall in IH. apply (IH _ Hchild). by exists node.
Qed.

Lemma find_None_Forall {A} (f : A → bool) (l : list A) :
  find f l = None ↔ ∀ x, x ∈ l → f x = false.
Proof.
  induction l as [|x l IH]; simpl.
  - split; [|done]. intros _ x Hx. by apply elem_of_nil in Hx.
  - destruct (f x) eqn:Hfx.
    + split; [done|]. intros H. rewrite H in Hfx; [done|]. apply list_elem_of_here.
    + rewrite IH. split.
      * intros H y [->|Hy]%elem_of_cons; auto.
      * intros H y Hy. apply H. by apply list_elem_of_further.
Qed.

Lemma first_failure_None self spec :
  first_failure self spec = None ↔ well_formed self spec.
Proof.
  unfold first_failure, well_formed. rewrite find_None_Forall. split.
  - intros H. split.
    + intros node Hn. specialize (H (CheckComponent (spec_type node))).
      cbn in H. rewrite bool_decide_eq_false in H.
      apply not_eq_None_Some, H, elem_of_checks. exists node. auto.
    + intros node key s Hn Hin Hslash. specialize (H (CheckToken (VStr s))).
      cbn in H. rewrite bool_decide_eq_false in H.
      apply not_eq_None_Some, H, elem_of_checks. exists node. split; [done|].
      right. apply elem_of_token_checks. by exists key, s.
  - intros [Hc Ht] c (node & Hn & [->|Hin])%elem_of_checks.
    + cbn. apply bool_decide_eq_false, not_eq_None_Some. auto.
    + apply elem_of_token_checks in Hin as (key & s & Hin & Hslash & ->).
      cbn. apply bool_decide_eq_false, not_eq_None_Some. eauto.
Qed.

(** ** Compilation follows the same traversal *)

Section Compilation.
Variable self : UniversalRenderer.

Lemma _resolve_props_loop_checks props parts :
  _resolve_props_loop self props parts =
    match find (check_fails self) (token_checks props) with
    | Some c => Raise (compilation_error c)
    | None => Ok (parts ++ (props ≫= emitted_attribute self))%list
    end.
Proof.
  revert parts. induction props as [|[key v] props IH]; intros parts.
  { cbn. by rewrite app_nil_r. }
  rewrite token_checks_cons. cbn [_resolve_props_loop mbind list_bind].
  destruct v as [s|[]|n|printed|printed]; cbn [_is_token_reference];
    rewrite ?IH, <-?(assoc_L (++)); try done.
  destruct (contains_slash s) eqn:Hslash;
    cbn [emitted_attribute find check_fails]; rewrite Hslash; [|done].
  unfold _resolve_token. destruct (tokens self !! s) as [token|] eqn:Hs.
  - rewrite bool_decide_eq_false_2 by done. cbn [mbind result_bind].
    by rewrite IH, <-(assoc_L (++)).
  - by rewrite bool_decide_eq_true_2 by done.
Qed.

Lemma _resolve_props_checks props :
  _resolve_props self props =
    match find (check_fails self) (token_checks props) with
    | Some c => Raise (compilation_error c)
    | None => Ok (join " " (props ≫= emitted_attribute self))
    end.
Proof.
  unfold _resolve_props. rewrite _resolve_props_loop_checks.
  by destruct (find _ _).
Qed.

Lemma specification_to_jsx_eq node depth :
  specification_to_jsx self node depth =
    let ty := spec_type node in
    let indent := repeat_str "  " depth in
    if negb (_component_exists self ty) then
      Raise (compilation_error (CheckComponent ty))
    else
      attrs ← _resolve_props self (spec_props node);
      match spec_children node with
      | _ :: _ =>
          lines ← compile_children self (S depth) (spec_children node);
          Ok (indent +:+ opening_tag ty attrs +:+ newline
              +:+ join newline lines +:+ newline
              +:+ indent +:+ closing_tag ty)
      | [] =>
          if negb (String.eqb (spec_content node) "") then
            Ok (indent +:+ opening_tag ty attrs +:+ spec_content node
                +:+ closing_tag ty)
          else Ok (indent +:+ self_closing_tag ty attrs)
      end.
Proof.
  destruct node as [ty props children content].
  cbn [specification_to_jsx spec_type spec_props spec_children spec_content].
  destruct (negb _); [done|].
  destruct (_resolve_props self props) as [attrs|e]; [|done].
  cbn [mbind result_bind].
  unfold opening_tag, closing_tag, self_closing_tag, newline.
  destruct children as [|child children].
  - destruct (negb _); by rewrite <-?(assoc_L String.app).
  - fold (compile_children self (S depth) (child :: children)).
    destruct (compile_children _ _ _); [|done]. cbn [mbind result_bind].
    by rewrite <-?(assoc_L String.app).
Qed.

Lemma compile_children_Forall2 depth children lines :
  compile_children self depth children = Ok lines ↔
  Forall2 (λ child line, specification_to_jsx self child depth = Ok line)
          children lines.
Proof.
  revert lines. induction children as [|child children IH]; intros lines.
  - split; [by intros [= <-]|by inversion 1].
  - cbn [compile_children]. fold (compile_children self depth children). split.
    + destruct (specification_to_jsx self child depth) as [line|] eqn:Hl;
        [|done]. cbn [mbind result_bind].
      destruct (compile_children self depth children) as [lines'|]; [|done].
      intros [= <-]. constructor; [done|by apply IH].
    + inversion 1 as [|? line ? lines' Hl Hls]; subst.
      apply IH in Hls. by rewrite Hl, Hls.
Qed.

Lemma compile_children_checks depth children :
  Forall (λ child, ∀ d,
            match first_failure self child with
            | Some c => specification_to_jsx self child d
                        = Raise (compilation_error c)
            | None => succeeds (specification_to_jsx self child d)
            end) children →
  match find (check_fails self) (children ≫= checks) with
  | Some c => compile_children self depth children = Raise (compilation_error c)
  | None => succeeds (compile_children self depth children)
  end.
Proof.
  induction 1 as [|child children Hchild _ IH]; [by eexists|].
  cbn [mbind list_bind compile_children].
  fold (compile_children self depth children).
  rewrite find_app. specialize (Hchild depth). unfold first_failure in Hchild.
  destruct (find _ (checks child)).
  - by rewrite Hchild.
  - destruct Hchild as [line ->]. cbn [mbind result_bind].
    destruct (find _ (children ≫= checks)).
    + by rewrite IH.
    + destruct IH as [lines ->]. by eexists.
Qed.

Lemma compile_checks node depth :
  match first_failure self node with
  | Some c => specification_to_jsx self node depth
              = Raise (compilation_error c)
  | None => succeeds (specification_to_jsx self node depth)
  end.
Proof.
  revert depth.
  induction node as [ty props children content IH] using SpecNode_ind.
  intros depth. rewrite specification_to_jsx_eq. unfold first_failure.
  cbn [checks spec_type spec_props spec_children spec_content find].
  rewrite _component_exists_fails, negb_involutive.
  destruct (check_fails self (CheckComponent ty)); [done|].
  rewrite find_app, _resolve_props_checks.
  destruct (find _ (token_checks props)); [done|]. cbn [mbind result_bind].
  apply (compile_children_checks (S depth)) in IH.
  destruct children as [|child children].
  - destruct (negb _); by eexists.
  - destruct (find _ (_ ≫= checks)).
    + by rewrite IH.
    + destruct IH as [lines ->]. by eexists.
Qed.

End Compilation.

(** ** What the extractors collect *)

Section Extraction.
Variable self : UniversalRenderer.

Lemma elem_of_foldl_add_token name values acc :
  name ∈ foldl (add_token self) acc values ↔
    name ∈ acc ∨ (VStr name ∈ values ∧ contains_slash name = true
                  ∧ is_Some (tokens self !! name)).
Proof.
  revert acc. induction values as [|v values IH]; intros acc.
  { cbn. rewrite elem_of_nil. tauto. }
  cbn [foldl]. rewrite IH, elem_of_cons. unfold add_token.
  destruct v as [s| | | |]; cbn [_is_token_reference in_tokens andb];
    try (split; [intros [|(?&?&?)]|intros [|([|]&?&?)]]; by eauto).
  destruct (contains_slash s) eqn:Hslash; cbn [andb].
  - case_bool_decide as Hs; cbn [py_str].
    + rewrite elem_of_union, elem_of_singleton.
      split; [intros [[->|]|(?&?&?)]|intros [|([[= ->]|]&?&?)]]; eauto 6.
    + split; [intros [|(?&?&?)]|intros [|([[= ->]|]&?&?)]]; by eauto.
  - split; [intros [|(?&?&?)]|intros [|([[= ->]|]&?&?)]]; eauto; congruence.
Qed.

Lemma extract_tokens_from_node_eq node acc :
  extract_tokens_from_node self node acc =
    extract_tokens_children self (spec_children node)
      (foldl (add_token self) acc (spec_props node).*2).
Proof. by destruct node. Qed.

Lemma elem_of_extract_tokens_from_node name node acc :
  name ∈ extract_tokens_from_node self node acc ↔
    name ∈ acc ∨ (references_token node name
                  ∧ is_Some (tokens self !! name)).
Proof.
  revert acc.
  induction node as [ty props children content IH] using SpecNode_ind.
  intros acc. rewrite extract_tokens_from_node_eq.
  cbn [spec_props spec_children].
  assert (∀ acc',
    name ∈ extract_tokens_children self children acc' ↔
      name ∈ acc' ∨ ∃ child, child ∈ children ∧ references_token child name
                             ∧ is_Some (tokens self !! name)) as Hchildren.
  { clear acc. induction IH as [|child children Hchild _ IHc]; intros acc'.
    - cbn. split; [auto|]. by intros [|(?&?%elem_of_nil&?)].
    - cbn [extract_tokens_children]. rewrite IHc, Hchild. split.
      + intros [[|[]]|(c&?&?)]; [by left|right..].
        * exists child. split; [apply list_elem_of_here|done].
        * exists c. split; [by apply list_elem_of_further|done].
      + intros [|(c&[->|]%elem_of_cons&?)]; eauto. }
  rewrite Hchildren, elem_of_foldl_add_token. unfold references_token.
  split.
  - intros [[|(Hin&?&?)]|(child&?&(node&key&?&?&?)&?)]; [by left|right..].
    + apply list_elem_of_fmap in Hin as ([key v]&->&?).
      split; [|done]. eexists _, key. split; [apply list_elem_of_here|done].
    + split; [|done]. exists node, key. split; [|done]. rewrite nodes_eq.
      apply list_elem_of_further, list_elem_of_bind. by exists child.
  - intros [|((node&key&Hn&?&?)&?)]; [by left; left|].
    rewrite nodes_eq in Hn. apply elem_of_cons in Hn as [->|Hn].
    + left; right. split; [|done]. apply list_elem_of_fmap.
      by exists (key, VStr name).
    + apply list_elem_of_bind in Hn as (child&?&?). right. exists child.
      split; [done|]. split; [|done]. by exists node, key.
Qed.

Lemma extract_components_from_node_eq node acc :
  extract_components_from_node self node acc =
    extract_components_children self (spec_children node)
      (if negb (String.eqb (spec_type node) "")
          && _component_exists self (spec_type node)
       then {[spec_type node]} ∪ acc else acc).
Proof. by destruct node. Qed.

Lemma elem_of_extract_components_from_node name node acc :
  name ∈ extract_components_from_node self node acc ↔
    name ∈ acc ∨ (has_component_type node name ∧ name ≠ ""
                  ∧ is_Some (components self !! name)).
Proof.
  revert acc.
  induction node as [ty props children content IH] using SpecNode_ind.
  intros acc. rewrite extract_components_from_node_eq.
  cbn [spec_type spec_children].
  assert (∀ acc',
    name ∈ extract_components_children self children acc' ↔
      name ∈ acc' ∨ ∃ child, child ∈ children ∧ has_component_type child name
                     ∧ name ≠ "" ∧ is_Some (components self !! name))
    as Hchildren.
  { clear acc. induction IH as [|child children Hchild _ IHc]; intros acc'.
    - cbn. split; [auto|]. by intros [|(?&?%elem_of_nil&?)].
    - cbn [extract_components_children]. rewrite IHc, Hchild. split.
      + intros [[|[]]|(c&?&?)]; [by left|right..].
        * exists child. split; [apply list_elem_of_here|done].
        * exists c. split; [by apply list_elem_of_further|done].
      + intros [|(c&[->|]%elem_of_cons&?)]; eauto. }
  rewrite Hchildren. unfold has_component_type, _component_exists.
  assert (name ∈ (if negb (String.eqb ty "")
                     && bool_decide (is_Some (components self !! ty))
                  then {[ty]} ∪ acc else acc) ↔
          name ∈ acc ∨ (ty = name ∧ name ≠ ""
                        ∧ is_Some (components self !! name))) as ->.
  { destruct (String.eqb_spec ty ""); cbn [negb andb].
    - split; [auto|]. intros [|(<-&?&?)]; done.
    - case_bool_decide.
      + rewrite elem_of_union, elem_of_singleton.
        split; [intros [->|]|intros [|(->&?&?)]]; auto.
      + split; [auto|]. intros [|(<-&?&?)]; done. }
  split.
  - intros [[|(<-&?&?)]|(child&?&(node&?&?)&?)]; [by left|right..].
    + split; [|done]. eexists. split; [apply list_elem_of_here|done].
    + split; [|done]. exists node. split; [|done]. rewrite nodes_eq.
      apply list_elem_of_further, list_elem_of_bind. by exists child.
  - intros [|((node&Hn&?)&?)]; [by left; left|].
    rewrite nodes_eq in Hn. apply elem_of_cons in Hn as [->|Hn].
    + left; right. done.
    + apply list_elem_of_bind in Hn as (child&?&?). right. exists child.
      split; [done|]. split; [|done]. by exists node.
Qed.

End Extraction.

(** ** The indices *)

Lemma lookup_foldl_insert {A} (name_of : A → string) (records : list A)
    (index : gmap string A) (name : string) :
  foldl (λ index r, <[name_of r := r]> index) index records !! name =
    match last_named name_of name records with
    | Some r => Some r
    | None => index !! name
    end.
Proof.
  unfold last_named.
  induction records as [|r records IH] using rev_ind; [done|].
  rewrite foldl_app, filter_app. cbn [foldl]. rewrite filter_cons, filter_nil.
  case_decide as Hname.
  - rewrite last_snoc. subst name. apply lookup_insert_eq.
  - rewrite app_nil_r, lookup_insert_ne by done. apply IH.
Qed.

Lemma _index_tokens_eq ds :
  _index_tokens ds =
    foldl (λ index token, <[token_name token := token]> index) ∅ (all_tokens ds).
Proof. unfold all_tokens. by rewrite !foldl_app. Qed.

Lemma validate_specification_checks self spec :
  validate_specification self spec =
    match first_failure self spec with
    | Some c => Raise (validation_error c)
    | None => Ok true
    end.
Proof.
  unfold validate_specification. rewrite validate_node_checks.
  by destruct (first_failure self spec).
Qed.

Lemma validate_by_checks self spec spec' :
  checks spec = checks spec' →
  validate_specification self spec = validate_specification self spec'.
Proof.
  intros Hchecks. rewrite !validate_specification_checks.
  unfold first_failure. by rewrite Hchecks.
Qed.

Lemma token_checks_filter props :
  token_checks (filter (λ prop, _is_token_reference prop.2 = true) props)
  = token_checks props.
Proof.
  induction props as [|[key v] props IH]; [done|].
  rewrite filter_cons, token_checks_cons. cbn [snd].
  destruct (_is_token_reference v) eqn:Href; case_decide; try done.
  by rewrite token_checks_cons, Href, IH.
Qed.

Lemma bind_checks_fmap (f : SpecNode → SpecNode) children :
  Forall (λ child, checks (f child) = checks child) children →
  (f <$> children) ≫= checks = children ≫= checks.
Proof.
  induction 1 as [|child children Hchild _ IH]; [done|].
  cbn [fmap list_fmap mbind list_bind]. fold (f <$> children).
  fold ((f <$> children) ≫= checks). fold (children ≫= checks).
  by rewrite Hchild, IH.
Qed.

Lemma checks_drop_literal_props spec :
  checks (drop_literal_props spec) = checks spec.
Proof.
  induction spec as [ty props children content IH] using SpecNode_ind.
  cbn [drop_literal_props spec_type spec_props spec_children spec_content].
  rewrite !checks_eq. cbn [spec_type spec_props spec_children].
  by rewrite token_checks_filter, bind_checks_fmap.
Qed.

Lemma checks_erase_content spec :
  checks (erase_content spec) = checks spec.
Proof.
  induction spec as [ty props children content IH] using SpecNode_ind.
  cbn [erase_content spec_type spec_props spec_children spec_content].
  rewrite !checks_eq. cbn [spec_type spec_props spec_children].
  by rewrite bind_checks_fmap.
Qed.

(** * Part IV: the claims *)

(** C1.  For a renderer built from a design system [ds], validation of a
    tree succeeds exactly when the type of every node is a name of the
    component index of [ds] and every prop value that is a string with a
    ['/'] in it is a name of the token index of [ds].  The other prop
    values play no part: validation gives the same outcome on the tree
    from which they are removed. *)
Theorem validate_iff_all_declared (ds : DesignSystem) (spec : SpecNode) :
  (validate_specification (new_renderer ds) spec = Ok true ↔
     (∀ node, node ∈ nodes spec →
        is_Some (_index_components ds !! spec_type node)) ∧
     (∀ node key s, node ∈ nodes spec → (key, VStr s) ∈ spec_props node →
        contains_slash s = true → is_Some (_index_tokens ds !! s))) ∧
  validate_specification (new_renderer ds) (drop_literal_props spec)
    = validate_specification (new_renderer ds) spec.
Proof.
  split.
  - rewrite validate_specification_checks.
    change (_ ∧ _) with (well_formed (new_renderer ds) spec).
    rewrite <-first_failure_None.
    by destruct (first_failure (new_renderer ds) spec).
  - apply validate_by_checks, checks_drop_literal_props.
Qed.

Lemma validate_iff_all_declared_witness :
  (∀ node, node ∈ nodes button_go →
     is_Some (_index_components example_ds !! spec_type node)) ∧
  (∀ node key s, node ∈ nodes button_go → (key, VStr s) ∈ spec_props node →
     contains_slash s = true → is_Some (_index_tokens example_ds !! s)).
Proof.
  apply (proj1 (proj1 (validate_iff_all_declared example_ds button_go))).
  vm_compute. reflexivity.
Defined.

Lemma find_Some_split {A} (f : A → bool) (l : list A) (x : A) :
  find f l = Some x →
  ∃ before after, l = (before ++ x :: after)%list
                  ∧ Forall (λ y, f y = false) before ∧ f x = true.
Proof.
  induction l as [|y l IH]; [done|]. cbn [find].
  destruct (f y) eqn:Hy.
  - intros [= ->]. by exists [], l.
  - intros (before & after & -> & Hbefore & Hx)%IH.
    exists (y :: before), after. split; [done|]. split; [|done].
    by constructor.
Qed.

(** C4.  A traversal looks up the type of a node, then the token-shaped
    values of its props in order, then does the same for each child in
    turn.  When validation fails, the error it raises is the one of the
    first of these look-ups that fails: every look-up before it succeeds.
    That error is either the one for a node's type that is not a
    component, or the one for a token-shaped prop value that is not a
    token, and validation raises nothing else. *)
Theorem validate_first_error (self : UniversalRenderer) (spec : SpecNode) :
  checks spec =
    (CheckComponent (spec_type spec)
       :: token_checks (spec_props spec) ++ (spec_children spec ≫= checks))%list ∧
  validate_specification self spec =
    match find (check_fails self) (checks spec) with
    | Some c => Raise (validation_error c)
    | None => Ok true
    end ∧
  ∀ e, validate_specification self spec = Raise e →
    (∃ before c after,
       checks spec = (before ++ c :: after)%list ∧
       Forall (λ c', check_fails self c' = false) before ∧
       check_fails self c = true ∧ e = validation_error c) ∧
    ((∃ node, node ∈ nodes spec ∧
        components self !! spec_type node = None ∧
        e = ValueError ("Component '" +:+ spec_type node
                        +:+ "' not in design system")) ∨
     (∃ node key s, node ∈ nodes spec ∧ (key, VStr s) ∈ spec_props node ∧
        contains_slash s = true ∧ tokens self !! s = None ∧
        e = ValueError ("Token '" +:+ s +:+ "' not found in design system"))).
Proof.
  split; [apply checks_eq|]. split; [apply validate_specification_checks|].
  intros e. rewrite validate_specification_checks. unfold first_failure.
  destruct (find _ _) as [c|] eqn:Hfind; [|done]. intros [= <-].
  apply find_Some_split in Hfind as Hsplit.
  destruct Hsplit as (before & after & Hchecks & Hbefore & Hc).
  split; [by exists before, c, after|].
  assert (c ∈ checks spec) as (node & Hn & [->|Hin])%elem_of_checks.
  { rewrite Hchecks. apply elem_of_app. right. apply list_elem_of_here. }
  - left. exists node. split; [done|]. split; [|done].
    by apply bool_decide_eq_true in Hc.
  - right. apply elem_of_token_checks in Hin as (key & s & Hin & Hslash & ->).
    exists node, key, s. repeat split; try done.
    by apply bool_decide_eq_true in Hc.
Qed.

Lemma validate_first_error_witness :
  ∃ node key s, node ∈ nodes button_accent
    ∧ (key, VStr s) ∈ spec_props node ∧ contains_slash s = true
    ∧ tokens example_renderer !! s = None
    ∧ ValueError "Token 'accent/900' not found in design system"
      = ValueError ("Token '" +:+ s +:+ "' not found in design system").
Proof.
  destruct (proj2 (proj2 (validate_first_error example_renderer
      button_accent))
      (ValueError "Token 'accent/900' not found in design system"))
    as [_ [(node & Hn & Hnone & Herr)|H]].
  - vm_compute. reflexivity.
  - exfalso. apply list_elem_of_singleton in Hn. subst node.
    vm_compute in Hnone. discriminate.
  - exact H.
Defined.

(** C3.  Rendering returns either the error that validation raises, and
    then nothing else, or the whole result: the markup, the tokens used
    and the components used.  When validation succeeds the compiler
    raises nothing (its own checks of the component and of the tokens
    cannot fail) and the whole result is returned. *)
Theorem render_all_or_nothing (self : UniversalRenderer) (spec : SpecNode) :
  match validate_specification self spec with
  | Raise e => render_design_specification self spec = Raise e
  | Ok _ =>
      ∃ markup,
        specification_to_jsx self spec 0 = Ok markup ∧
        render_design_specification self spec =
          Ok {| jsx := markup;
                specification := spec;
                tokens_used := extract_tokens_from_spec self spec;
                components_used := extract_components_from_spec self spec;
                valid := true |}
  end.
Proof.
  unfold render_design_specification.
  pose proof (compile_checks self spec 0) as Hcompile.
  rewrite validate_specification_checks in *.
  destruct (first_failure self spec); [done|].
  destruct Hcompile as [markup Hmarkup]. exists markup.
  by rewrite Hmarkup.
Qed.

(** C6, as the code has it.  The compiler does check: it makes the same
    look-ups as validation, in the same order, and raises at the first
    one that fails, with its own messages.  So it returns markup exactly
    when validation succeeds. *)
Theorem compile_checks_again (self : UniversalRenderer) (spec : SpecNode)
    (depth : nat) :
  match find (check_fails self) (checks spec) with
  | Some c =>
      specification_to_jsx self spec depth = Raise (compilation_error c)
  | None => ∃ markup, specification_to_jsx self spec depth = Ok markup
  end ∧
  ((∃ markup, specification_to_jsx self spec depth = Ok markup) ↔
   validate_specification self spec = Ok true).
Proof.
  pose proof (compile_checks self spec depth) as Hcompile.
  rewrite validate_specification_checks. unfold first_failure in *.
  destruct (find _ _) as [c|].
  - split; [done|]. rewrite Hcompile. split; [by intros [? ?]|done].
  - split; [done|]. by split.
Qed.

(** C6, as stated, fails: compiling a node of type [Toggle] against a
    design system without that component, or a prop that refers to the
    token [accent/900] against one without that token, raises the
    compiler's own [ValueError]. *)
Lemma compile_detects_unknown_names :
  specification_to_jsx example_renderer (Spec "Toggle" [] [] "") 0
    = Raise (ValueError "Component 'Toggle' not found in design system") ∧
  specification_to_jsx example_renderer
      button_accent 0
    = Raise (ValueError "Token 'accent/900' not found").
Proof. split; vm_compute; reflexivity. Qed.

(** C7, as the code has it.  The list of used tokens has no duplicates
    and holds the names that a token-shaped prop value of some node
    refers to and that are in the token index; the list of used
    components has no duplicates and holds the types of the nodes that
    are not empty and are in the component index. *)
Theorem extract_declared_names (self : UniversalRenderer) (spec : SpecNode) :
  NoDup (extract_tokens_from_spec self spec) ∧
  (∀ name, name ∈ extract_tokens_from_spec self spec ↔
     references_token spec name ∧ is_Some (tokens self !! name)) ∧
  NoDup (extract_components_from_spec self spec) ∧
  (∀ name, name ∈ extract_components_from_spec self spec ↔
     has_component_type spec name ∧ name ≠ ""
     ∧ is_Some (components self !! name)).
Proof.
  unfold extract_tokens_from_spec, extract_components_from_spec.
  split; [apply NoDup_elements|]. split.
  { intros name. rewrite elem_of_elements, elem_of_extract_tokens_from_node.
    rewrite elem_of_empty. tauto. }
  split; [apply NoDup_elements|].
  intros name. rewrite elem_of_elements, elem_of_extract_components_from_node.
  rewrite elem_of_empty. tauto.
Qed.

(** C7, as stated, fails: a tree whose only node has a type and refers to
    a token that the design system does not have yields two empty lists,
    although the tree names both. *)
Lemma extract_skips_undeclared_names :
  references_token toggle_accent "accent/900" ∧
  ("accent/900" ∉ extract_tokens_from_spec example_renderer toggle_accent) ∧
  has_component_type toggle_accent "Toggle" ∧
  ("Toggle" ∉ extract_components_from_spec example_renderer toggle_accent).
Proof.
  repeat split.
  - eexists _, "backgroundColor". repeat split; apply list_elem_of_here.
  - vm_compute. apply not_elem_of_nil.
  - eexists. split; [apply list_elem_of_here|done].
  - vm_compute. apply not_elem_of_nil.
Qed.

(** C8.  Building the indices is a total function of the design system,
    and of nothing but its token collections (for the token index) and
    its components (for the component index).  A name is looked up to the
    last record that bears it, the tokens being enumerated colors first,
    then typography, then spacing; duplicates are no error. *)
Theorem index_last_write_wins (ds : DesignSystem) (name : string) :
  all_tokens ds =
    (default [] (ds_tokens ds !! "colors")
     ++ default [] (ds_tokens ds !! "typography")
     ++ default [] (ds_tokens ds !! "spacing"))%list ∧
  _index_tokens ds !! name = last_named token_name name (all_tokens ds) ∧
  _index_components ds !! name =
    last_named component_name name (default [] (ds_components ds)) ∧
  (∀ version lastUpdated other_components,
     _index_tokens ds =
       _index_tokens {| ds_version := version; ds_lastUpdated := lastUpdated;
                        ds_tokens := ds_tokens ds;
                        ds_components := other_components |}) ∧
  (∀ version lastUpdated other_tokens,
     _index_components ds =
       _index_components {| ds_version := version;
                            ds_lastUpdated := lastUpdated;
                            ds_tokens := other_tokens;
                            ds_components := ds_components ds |}).
Proof.
  split; [done|]. split.
  { rewrite _index_tokens_eq, lookup_foldl_insert, lookup_empty.
    by destruct (last_named _ _ _). }
  split; [|done].
  unfold _index_components. rewrite lookup_foldl_insert, lookup_empty.
  by destruct (last_named _ _ _).
Qed.

(** ** The shape of the markup *)

Lemma length_repeat_two_spaces depth :
  String.length (repeat_str "  " depth) = 2 * depth.
Proof.
  induction depth as [|depth IH]; [done|].
  change (S (S (String.length (repeat_str "  " depth))) = 2 * S depth). lia.
Qed.

Lemma self_closing_ne_opening indent ty attrs rest :
  indent +:+ self_closing_tag ty attrs
  ≠ indent +:+ opening_tag ty attrs +:+ rest.
Proof.
  unfold self_closing_tag, opening_tag. rewrite <-!(assoc_L String.app).
  intros H. do 5 apply (inj (String.app _)) in H. discriminate.
Qed.

Section Shape.
Variable self : UniversalRenderer.

Lemma validated_parts node depth :
  validate_node self node = Ok tt →
  _component_exists self (spec_type node) = true ∧
  (∃ attrs, _resolve_props self (spec_props node) = Ok attrs) ∧
  (∃ lines, compile_children self depth (spec_children node) = Ok lines).
Proof.
  rewrite validate_node_checks. unfold first_failure. rewrite checks_eq.
  cbn [find]. rewrite _component_exists_fails.
  destruct (check_fails self (CheckComponent _)); [done|].
  rewrite find_app, _resolve_props_checks.
  destruct (find _ (token_checks _)); [done|].
  destruct (find _ (_ ≫= checks)) eqn:Hchildren; [done|]. intros _.
  split; [done|]. split; [by eexists|].
  pose proof (compile_children_checks self depth (spec_children node)) as H.
  rewrite Hchildren in H. apply H, Forall_forall.
  intros child _ d. apply compile_checks.
Qed.

Lemma compile_self_closing node depth attrs :
  _component_exists self (spec_type node) = true →
  _resolve_props self (spec_props node) = Ok attrs →
  spec_children node = [] → spec_content node = "" →
  specification_to_jsx self node depth =
    Ok (repeat_str "  " depth +:+ self_closing_tag (spec_type node) attrs).
Proof.
  intros Hty Hattrs Hchildren Hcontent. rewrite specification_to_jsx_eq.
  cbn zeta. by rewrite Hty, Hattrs, Hchildren, Hcontent.
Qed.

Lemma compile_content node depth attrs :
  _component_exists self (spec_type node) = true →
  _resolve_props self (spec_props node) = Ok attrs →
  spec_children node = [] → spec_content node ≠ "" →
  specification_to_jsx self node depth =
    Ok (repeat_str "  " depth +:+ opening_tag (spec_type node) attrs
        +:+ spec_content node +:+ closing_tag (spec_type node)).
Proof.
  intros Hty Hattrs Hchildren Hcontent. rewrite specification_to_jsx_eq.
  cbn zeta. rewrite Hty, Hattrs, Hchildren. cbn [negb mbind result_bind].
  by destruct (String.eqb_spec (spec_content node) "").
Qed.

Lemma compile_with_children node depth attrs lines :
  _component_exists self (spec_type node) = true →
  _resolve_props self (spec_props node) = Ok attrs →
  spec_children node ≠ [] →
  Forall2 (λ child line, specification_to_jsx self child (S depth) = Ok line)
          (spec_children node) lines →
  specification_to_jsx self node depth =
    Ok (repeat_str "  " depth +:+ opening_tag (spec_type node) attrs
        +:+ newline +:+ join newline lines +:+ newline
        +:+ repeat_str "  " depth +:+ closing_tag (spec_type node)).
Proof.
  intros Hty Hattrs Hchildren Hlines%compile_children_Forall2.
  rewrite specification_to_jsx_eq. cbn zeta.
  rewrite Hty, Hattrs, Hlines. cbn [negb mbind result_bind].
  by destruct (spec_children node).
Qed.

End Shape.

(** C2.  A node that validates compiles as follows, [attrs] being its
    resolved props and [lines] the markup of its children, each compiled
    one level deeper.  With no children and no content it is the
    self-closing element, and only then; with content and no children it
    is the opening tag, the content and the closing tag; with children it
    is the opening tag, the children's markup joined by newlines, and the
    closing tag on a line of its own.  Every line starts with two spaces
    per level.  A [Container] holding a [Text] with content [Hi] gives an
    opening tag, the indented [Text] element and a closing tag. *)
Theorem compile_shape :
  (∀ (self : UniversalRenderer) (node : SpecNode) (depth : nat),
     validate_node self node = Ok tt →
     ∃ attrs lines,
       let ty := spec_type node in
       let indent := repeat_str "  " depth in
       _resolve_props self (spec_props node) = Ok attrs ∧
       Forall2 (λ child line,
                  specification_to_jsx self child (S depth) = Ok line)
               (spec_children node) lines ∧
       String.length indent = 2 * depth ∧
       (spec_children node = [] ∧ spec_content node = "" →
        specification_to_jsx self node depth
          = Ok (indent +:+ self_closing_tag ty attrs)) ∧
       (spec_children node = [] ∧ spec_content node ≠ "" →
        specification_to_jsx self node depth
          = Ok (indent +:+ opening_tag ty attrs +:+ spec_content node
                +:+ closing_tag ty)) ∧
       (spec_children node ≠ [] →
        specification_to_jsx self node depth
          = Ok (indent +:+ opening_tag ty attrs +:+ newline
                +:+ join newline lines +:+ newline
                +:+ indent +:+ closing_tag ty)) ∧
       (specification_to_jsx self node depth
          = Ok (indent +:+ self_closing_tag ty attrs) →
        spec_children node = [] ∧ spec_content node = "")) ∧
  (∀ self : UniversalRenderer,
     _component_exists self "Container" = true →
     _component_exists self "Text" = true →
     specification_to_jsx self container_hi 0
       = Ok ("<Container >" +:+ newline +:+
             "  <Text >Hi</Text>" +:+ newline +:+
             "</Container>")).
Proof.
  split.
  - intros self node depth Hvalid.
    destruct (validated_parts self node (S depth) Hvalid)
      as (Hty & [attrs Hattrs] & [lines Hlines]).
    exists attrs, lines. cbn zeta. split; [done|].
    split; [by apply compile_children_Forall2|].
    split; [apply length_repeat_two_spaces|].
    split; [intros []; by apply compile_self_closing|].
    split; [intros []; by apply compile_content|].
    split.
    { intros ?. apply compile_with_children; try done.
      by apply compile_children_Forall2. }
    destruct (decide (spec_children node = [])) as [Hnil|Hcons].
    + destruct (decide (spec_content node = "")) as [|Hcontent]; [done|].
      rewrite (compile_content self node depth attrs) by done.
      intros [= H]. symmetry in H. by apply self_closing_ne_opening in H.
    + rewrite (compile_with_children self node depth attrs lines);
        [|done..|by apply compile_children_Forall2].
      intros [= H]. symmetry in H. by apply self_closing_ne_opening in H.
  - intros self Hcontainer Htext.
    cbn [specification_to_jsx container_hi spec_type spec_props
         spec_children spec_content].
    by rewrite Hcontainer, Htext.
Qed.

Lemma compile_shape_witness :
  ∃ attrs lines,
    _resolve_props example_renderer (spec_props container_hi) = Ok attrs ∧
    Forall2 (λ child line,
               specification_to_jsx example_renderer child 1 = Ok line)
            (spec_children container_hi) lines ∧
    specification_to_jsx example_renderer container_hi 0
      = Ok (opening_tag "Container" attrs +:+ newline
            +:+ join newline lines +:+ newline +:+ closing_tag "Container").
Proof.
  destruct (proj1 compile_shape example_renderer container_hi 0)
    as (attrs & lines & Hattrs & Hlines & _ & _ & _ & Hchildren & _).
  - vm_compute. reflexivity.
  - exists attrs, lines. split; [exact Hattrs|]. split; [exact Hlines|].
    apply Hchildren. discriminate.
Defined.

Lemma token_checks_pass self props :
  (∀ key s, (key, VStr s) ∈ props → contains_slash s = true →
     is_Some (tokens self !! s)) →
  find (check_fails self) (token_checks props) = None.
Proof.
  intros Hprops. apply find_None_Forall.
  intros c (key & s & Hin & Hslash & ->)%elem_of_token_checks.
  cbn. apply bool_decide_eq_false, not_eq_None_Some. eauto.
Qed.

(** C5, as the code has it.  When every token reference among the props
    names a token, the emitted attributes are, joined by spaces and in the
    order of the props, what [emitted_attribute] gives for each prop: a
    plain string is written quoted and unchanged, a number bare, [True]
    as the bare key; [False] and values of other kinds are left out; a
    token reference is replaced by the token's [value], or kept as it is
    when the token has no [value].  With a colour token [primary/500] of
    value [#3B82F6] and a component [Button], the button of the example
    renders to its markup with the colour in place, the token as the one
    token used and the component as the one component used. *)
Theorem resolve_props_emitted :
  (∀ (self : UniversalRenderer) (props : list (string * value)),
     (∀ key s, (key, VStr s) ∈ props → contains_slash s = true →
        is_Some (tokens self !! s)) →
     _resolve_props self props
       = Ok (join " " (props ≫= emitted_attribute self))) ∧
  (∀ (self : UniversalRenderer) (token : Token),
     tokens self !! "primary/500" = Some token →
     token_value token = Some (VStr "#3B82F6") →
     _component_exists self "Button" = true →
     render_design_specification self button_go =
       Ok {| jsx := "<Button backgroundColor=" +:+ dquote +:+ "#3B82F6"
                    +:+ dquote +:+ ">Go</Button>";
             specification := button_go;
             tokens_used := ["primary/500"];
             components_used := ["Button"];
             valid := true |}).
Proof.
  split.
  - intros self props Hprops.
    by rewrite _resolve_props_checks, token_checks_pass.
  - intros self token Htoken Hvalue Hbutton.
    assert (_resolve_props self (spec_props button_go)
            = Ok ("backgroundColor=" +:+ dquote +:+ "#3B82F6" +:+ dquote))
      as Hprops.
    { unfold _resolve_props. cbn [button_go spec_props _resolve_props_loop].
      change (_is_token_reference (VStr "primary/500")) with true.
      unfold _resolve_token. rewrite Htoken, Hvalue. reflexivity. }
    assert (validate_specification self button_go = Ok true) as Hvalid.
    { rewrite validate_specification_checks. unfold first_failure.
      change (checks button_go)
        with [CheckComponent "Button"; CheckToken (VStr "primary/500")].
      rewrite _component_exists_fails in Hbutton.
      apply negb_true_iff in Hbutton. cbn [find]. rewrite Hbutton.
      cbn [check_fails]. by rewrite Htoken. }
    assert (extract_tokens_from_spec self button_go = ["primary/500"]) as Htoks.
    { unfold extract_tokens_from_spec.
      rewrite extract_tokens_from_node_eq.
      cbn [button_go spec_props spec_children fmap list_fmap snd foldl
           extract_tokens_children].
      unfold add_token.
      change (_is_token_reference (VStr "primary/500")) with true.
      cbn [in_tokens andb py_str]. rewrite Htoken.
      rewrite bool_decide_eq_true_2 by by eexists.
      by rewrite (right_id_L ∅ (∪)), elements_singleton. }
    assert (extract_components_from_spec self button_go = ["Button"]) as Hcomps.
    { unfold extract_components_from_spec.
      rewrite extract_components_from_node_eq.
      cbn [button_go spec_type spec_children extract_components_children].
      rewrite Hbutton. cbn [negb andb String.eqb Ascii.eqb].
      change ("Button" =? "")%string with false. cbn [negb andb].
      by rewrite (right_id_L ∅ (∪)), elements_singleton. }
    unfold render_design_specification.
    rewrite Hvalid, Htoks, Hcomps. cbn [mbind result_bind].
    rewrite (compile_content self button_go 0 _ Hbutton Hprops); done.
Qed.

Lemma resolve_props_emitted_witness :
  _resolve_props example_renderer
      [("backgroundColor", VStr "primary/500"); ("label", VStr "Go");
       ("disabled", VBool false); ("primary", VBool true);
       ("tabIndex", VInt 2); ("font", VStr "Heading/H1")]
    = Ok ("backgroundColor=" +:+ dquote +:+ "#3B82F6" +:+ dquote
          +:+ " label=" +:+ dquote +:+ "Go" +:+ dquote
          +:+ " primary tabIndex=2 font=" +:+ dquote +:+ "Heading/H1"
          +:+ dquote).
Proof.
  apply (proj1 resolve_props_emitted example_renderer).
  intros key s Hin Hslash.
  repeat (apply elem_of_cons in Hin as [Heq|Hin];
          [try discriminate Heq; injection Heq as -> ->;
           first [discriminate Hslash | vm_compute; eexists; reflexivity]|]).
  by apply elem_of_nil in Hin.
Defined.

(** C5, as stated, fails: the literal [False] leaves nothing in the
    emitted attributes, and a reference to a text style, a token without a
    [value], is not replaced (the name stays). *)
Lemma literal_false_is_dropped :
  _resolve_props example_renderer [("disabled", VBool false)] = Ok "" ∧
  (tokens example_renderer !! "Heading/H1" = Some heading_1 ∧
   token_value heading_1 = None ∧
   _resolve_props example_renderer [("font", VStr "Heading/H1")]
     = Ok ("font=" +:+ dquote +:+ "Heading/H1" +:+ dquote)).
Proof. repeat split; vm_compute; reflexivity. Qed.

(** C9.  A node with children and content compiles to what the same node
    without the content compiles to: when its type is a component, its
    props resolve and its children compile, that is the opening tag, the
    children's markup and the closing tag, and the content is nowhere in
    the rule. *)
Theorem children_take_precedence (self : UniversalRenderer) (node : SpecNode)
    (depth : nat) :
  spec_children node ≠ [] →
  spec_content node ≠ "" →
  specification_to_jsx self node depth
    = specification_to_jsx self
        (Spec (spec_type node) (spec_props node) (spec_children node) "")
        depth ∧
  ∀ attrs lines,
    _component_exists self (spec_type node) = true →
    _resolve_props self (spec_props node) = Ok attrs →
    Forall2 (λ child line, specification_to_jsx self child (S depth) = Ok line)
            (spec_children node) lines →
    specification_to_jsx self node depth
      = Ok (repeat_str "  " depth +:+ opening_tag (spec_type node) attrs
            +:+ newline +:+ join newline lines +:+ newline
            +:+ repeat_str "  " depth +:+ closing_tag (spec_type node)).
Proof.
  intros Hchildren _. split.
  - rewrite !specification_to_jsx_eq.
    cbn [spec_type spec_props spec_children spec_content].
    by destruct (spec_children node).
  - intros attrs lines Hty Hattrs Hlines. by apply compile_with_children.
Qed.

Lemma children_take_precedence_witness :
  specification_to_jsx example_renderer container_with_both 0
    = Ok ("<Container >" +:+ newline +:+ "  <Text >Hi</Text>" +:+ newline
          +:+ "</Container>").
Proof.
  refine (proj2 (children_take_precedence example_renderer
                   container_with_both 0 _ _) "" ["  <Text >Hi</Text>"] _ _ _).
  - discriminate.
  - discriminate.
  - vm_compute. reflexivity.
  - vm_compute. reflexivity.
  - repeat constructor.
Defined.

(** C10.  The content of a node is never looked up: two trees that differ
    only in the content of their nodes validate alike, whatever the
    content is; and a node with content and no children, whose type is a
    component and whose props resolve, compiles to the opening tag, the
    content as it is, and the closing tag.  So a content [accent/900],
    which names no token, validates and is emitted as written. *)
Theorem content_is_not_a_reference (self : UniversalRenderer) :
  (∀ spec spec', erase_content spec = erase_content spec' →
     validate_specification self spec = validate_specification self spec') ∧
  (∀ node depth attrs,
     spec_children node = [] → spec_content node ≠ "" →
     _component_exists self (spec_type node) = true →
     _resolve_props self (spec_props node) = Ok attrs →
     specification_to_jsx self node depth
       = Ok (repeat_str "  " depth +:+ opening_tag (spec_type node) attrs
             +:+ spec_content node +:+ closing_tag (spec_type node))) ∧
  (_component_exists self "Text" = true →
   tokens self !! "accent/900" = None →
   validate_specification self text_accent = Ok true ∧
   specification_to_jsx self text_accent 0
     = Ok "<Text >accent/900</Text>").
Proof.
  split; [|split].
  - intros spec spec' Herase. apply validate_by_checks.
    by rewrite <-(checks_erase_content spec), Herase, checks_erase_content.
  - intros node depth attrs ????. by apply compile_content.
  - intros Htext _. unfold validate_specification, text_accent.
    cbn [validate_node specification_to_jsx spec_type spec_props
         spec_children spec_content validate_props].
    by rewrite Htext.
Qed.

Lemma content_is_not_a_reference_witness :
  validate_specification example_renderer text_accent
    = Ok true ∧
  specification_to_jsx example_renderer text_accent 0
    = Ok "<Text >accent/900</Text>".
Proof.
  apply (proj2 (proj2 (content_is_not_a_reference example_renderer))).
  - vm_compute. reflexivity.
  - vm_compute. reflexivity.
Defined.

(** Two colours and a spacing of one name: the spacing, enumerated last,
    is the one indexed. *)
Example index_of_duplicates :
  _index_tokens duplicates_ds !! "base"
  = Some {| token_name := "base"; token_value := Some (VInt 8);
            token_fields := [] |}.
Proof. vm_compute. reflexivity. Qed.

(** * Part V: further properties of the renderer *)

Lemma validate_node_well_formed self spec :
  validate_node self spec = Ok tt ↔ well_formed self spec.
Proof.
  rewrite validate_node_checks, <-first_failure_None.
  by destruct (first_failure self spec).
Qed.

Lemma validate_specification_well_formed self spec :
  validate_specification self spec = Ok true ↔ well_formed self spec.
Proof.
  rewrite validate_specification_checks, <-first_failure_None.
  by destruct (first_failure self spec).
Qed.

Lemma compile_well_formed self spec depth :
  well_formed self spec →
  ∃ markup, specification_to_jsx self spec depth = Ok markup.
Proof.
  intros Hwf%first_failure_None.
  pose proof (compile_checks self spec depth) as H. by rewrite Hwf in H.
Qed.

Lemma nodes_self spec : spec ∈ nodes spec.
Proof. rewrite nodes_eq. apply list_elem_of_here. Qed.

Lemma nodes_child spec child node :
  child ∈ spec_children spec → node ∈ nodes child → node ∈ nodes spec.
Proof.
  intros Hchild Hnode. rewrite nodes_eq.
  apply list_elem_of_further, list_elem_of_bind. by exists child.
Qed.

Lemma nodes_trans spec node node' :
  node ∈ nodes spec → node' ∈ nodes node → node' ∈ nodes spec.
Proof.
  induction spec as [ty props children content IH] using SpecNode_ind.
  intros Hin Hnode'. rewrite nodes_eq in Hin. cbn [spec_children] in Hin.
  apply elem_of_cons in Hin as [->|Hin]; [done|].
  apply list_elem_of_bind in Hin as (child & Hin & Hchild).
  apply (nodes_child _ child); [done|].
  rewrite Forall_forall in IH. by apply (IH child).
Qed.

Lemma well_formed_node self spec node :
  well_formed self spec → node ∈ nodes spec → well_formed self node.
Proof.
  intros [Hc Ht] Hnode. split.
  - intros n Hn. apply Hc. by apply (nodes_trans _ node).
  - intros n key s Hn. apply Ht. by apply (nodes_trans _ node).
Qed.

(** X2.  Every subtree of a tree that validates validates itself, and
    compiles at whatever depth. *)
Theorem subtree_of_valid_is_valid (self : UniversalRenderer)
    (spec node : SpecNode) :
  validate_specification self spec = Ok true →
  node ∈ nodes spec →
  validate_specification self node = Ok true ∧
  ∀ depth, ∃ markup, specification_to_jsx self node depth = Ok markup.
Proof.
  intros Hvalid%validate_specification_well_formed Hnode.
  pose proof (well_formed_node _ _ _ Hvalid Hnode) as Hwf.
  split; [by apply validate_specification_well_formed|].
  intros depth. by apply compile_well_formed.
Qed.

Lemma subtree_of_valid_is_valid_witness :
  validate_specification example_renderer button_go = Ok true ∧
  ∀ depth, ∃ markup,
    specification_to_jsx example_renderer button_go depth = Ok markup.
Proof.
  apply (subtree_of_valid_is_valid example_renderer page button_go).
  - vm_compute. reflexivity.
  - apply list_elem_of_further, list_elem_of_here.
Defined.

(** ** A larger design system *)

Section Extension.
Variables self self' : UniversalRenderer.
Hypothesis Htokens : tokens self ⊆ tokens self'.
Hypothesis Hcomponents : components self ⊆ components self'.

Lemma well_formed_weaken spec :
  well_formed self spec → well_formed self' spec.
Proof.
  intros [Hc Ht]. split.
  - intros node Hn. destruct (Hc node Hn) as [c Hlookup].
    exists c. by apply (lookup_weaken _ _ _ _ Hlookup).
  - intros node key s Hn Hin Hslash.
    destruct (Ht node key s Hn Hin Hslash) as [t Hlookup].
    exists t. by apply (lookup_weaken _ _ _ _ Hlookup).
Qed.

Lemma emitted_attributes_weaken props :
  (∀ key s, (key, VStr s) ∈ props → contains_slash s = true →
     is_Some (tokens self !! s)) →
  props ≫= emitted_attribute self' = props ≫= emitted_attribute self.
Proof.
  induction props as [|[key v] props IH]; intros Hprops; [done|].
  cbn [mbind list_bind]. fold (props ≫= emitted_attribute self').
  fold (props ≫= emitted_attribute self). rewrite IH.
  - f_equal. destruct v as [s| | | |]; try done. cbn [emitted_attribute].
    destruct (contains_slash s) eqn:Hslash; [|done].
    destruct (Hprops key s) as [t Hlookup]; [apply list_elem_of_here|done|].
    by rewrite Hlookup, (lookup_weaken _ _ _ _ Hlookup Htokens).
  - intros k s Hin. apply (Hprops k). by apply list_elem_of_further.
Qed.

Lemma compile_weaken spec :
  well_formed self spec →
  ∀ depth, specification_to_jsx self' spec depth
           = specification_to_jsx self spec depth.
Proof.
  induction spec as [ty props children content IH] using SpecNode_ind.
  intros Hwf depth. pose proof (well_formed_weaken _ Hwf) as Hwf'.
  rewrite !specification_to_jsx_eq.
  cbn [spec_type spec_props spec_children spec_content].
  assert (∀ key s, (key, VStr s) ∈ props → contains_slash s = true →
            is_Some (tokens self !! s)) as Hprops.
  { intros key s Hin.
    apply (proj2 Hwf (Spec ty props children content) key);
      [apply nodes_self|done]. }
  assert (∀ key s, (key, VStr s) ∈ props → contains_slash s = true →
            is_Some (tokens self' !! s)) as Hprops'.
  { intros key s Hin.
    apply (proj2 Hwf' (Spec ty props children content) key);
      [apply nodes_self|done]. }
  unfold _component_exists.
  rewrite (bool_decide_eq_true_2 (is_Some (components self !! ty)))
    by apply (proj1 Hwf (Spec ty props children content)), nodes_self.
  rewrite (bool_decide_eq_true_2 (is_Some (components self' !! ty)))
    by apply (proj1 Hwf' (Spec ty props children content)), nodes_self.
  cbn [negb]. rewrite !_resolve_props_checks, !token_checks_pass by done.
  rewrite emitted_attributes_weaken by done.
  cbn [mbind result_bind].
  assert (compile_children self' (S depth) children
          = compile_children self (S depth) children) as ->; [|done].
  assert (Forall (well_formed self) children) as Hchildren.
  { apply Forall_forall. intros child Hchild.
    apply (well_formed_node self (Spec ty props children content));
      [done|]. apply (nodes_child _ child); [done|apply nodes_self]. }
  clear Hwf Hwf' Hprops Hprops'.
  induction IH as [|child children Hchild _ IHc]; [done|].
  apply Forall_cons in Hchildren as [Hwf Hchildren].
  cbn [compile_children]. fold (compile_children self' (S depth) children).
  fold (compile_children self (S depth) children).
  by rewrite Hchild, IHc.
Qed.

End Extension.

Lemma extract_tokens_well_formed self spec name :
  well_formed self spec →
  name ∈ extract_tokens_from_node self spec ∅ ↔ references_token spec name.
Proof.
  intros [_ Ht]. rewrite elem_of_extract_tokens_from_node, elem_of_empty.
  split; [by intros [[]|[? _]]|]. intros Href. right. split; [done|].
  destruct Href as (node & key & ? & ? & ?). by apply (Ht node key).
Qed.

Lemma extract_components_well_formed self spec name :
  well_formed self spec →
  name ∈ extract_components_from_node self spec ∅ ↔
    has_component_type spec name ∧ name ≠ "".
Proof.
  intros [Hc _]. rewrite elem_of_extract_components_from_node, elem_of_empty.
  split; [by intros [[]|(? & ? & _)]|]. intros [Hty Hne]. right.
  split; [done|]. split; [done|]. destruct Hty as (node & ? & <-). by apply Hc.
Qed.

(** X1.  Adding tokens and components to the indices keeps a valid tree
    valid and leaves the whole result of rendering it as it was. *)
Theorem render_stable_under_extension (self self' : UniversalRenderer)
    (spec : SpecNode) :
  tokens self ⊆ tokens self' →
  components self ⊆ components self' →
  validate_specification self spec = Ok true →
  validate_specification self' spec = Ok true ∧
  (∀ depth, specification_to_jsx self' spec depth
            = specification_to_jsx self spec depth) ∧
  render_design_specification self' spec
    = render_design_specification self spec.
Proof.
  intros Htokens Hcomponents Hvalid.
  pose proof Hvalid as Hwf%validate_specification_well_formed.
  pose proof (well_formed_weaken _ _ Htokens Hcomponents _ Hwf) as Hwf'.
  pose proof Hwf' as Hvalid'%validate_specification_well_formed.
  split; [done|]. split; [by apply compile_weaken|].
  unfold render_design_specification. rewrite Hvalid, Hvalid'.
  cbn [mbind result_bind].
  rewrite (compile_weaken _ _ Htokens Hcomponents _ Hwf).
  unfold extract_tokens_from_spec, extract_components_from_spec.
  assert (extract_tokens_from_node self' spec ∅
          = extract_tokens_from_node self spec ∅) as ->.
  { apply set_eq. intros name. by rewrite !extract_tokens_well_formed. }
  assert (extract_components_from_node self' spec ∅
          = extract_components_from_node self spec ∅) as ->; [|done].
  apply set_eq. intros name. by rewrite !extract_components_well_formed.
Qed.

Lemma render_stable_under_extension_witness :
  render_design_specification (new_renderer larger_ds) page
    = render_design_specification example_renderer page.
Proof.
  apply (render_stable_under_extension example_renderer
           (new_renderer larger_ds) page).
  - apply map_subseteq_spec. intros name t H.
    apply elem_of_map_to_list in H. vm_compute in H.
    repeat (apply elem_of_cons in H as [H|H];
            [injection H as -> ->; vm_compute; reflexivity|]).
    by apply elem_of_nil in H.
  - apply map_subseteq_spec. intros name c H.
    apply elem_of_map_to_list in H. vm_compute in H.
    repeat (apply elem_of_cons in H as [H|H];
            [injection H as -> ->; vm_compute; reflexivity|]).
    by apply elem_of_nil in H.
  - vm_compute. reflexivity.
Defined.

(** X3.  When rendering returns, the markup is that of the tree at depth
    0, the tokens used are, once each, exactly the names that the
    token-shaped prop values of the tree refer to, and the components used
    are, once each, exactly the types of its nodes that are not empty. *)
Theorem rendered_metadata_exact (self : UniversalRenderer) (spec : SpecNode)
    (r : Rendered) :
  render_design_specification self spec = Ok r →
  specification r = spec ∧ valid r = true ∧
  specification_to_jsx self spec 0 = Ok (jsx r) ∧
  NoDup (tokens_used r) ∧
  (∀ name, name ∈ tokens_used r ↔ references_token spec name) ∧
  NoDup (components_used r) ∧
  (∀ name, name ∈ components_used r ↔
     has_component_type spec name ∧ name ≠ "").
Proof.
  unfold render_design_specification.
  destruct (validate_specification self spec) as [b|] eqn:Hvalid; [|done].
  assert (well_formed self spec) as Hwf.
  { apply validate_specification_well_formed. rewrite Hvalid.
    unfold validate_specification in Hvalid.
    destruct (validate_node self spec); by simplify_eq/=. }
  cbn [mbind result_bind].
  destruct (specification_to_jsx self spec 0) as [markup|]; [|done].
  intros [= <-]. cbn [specification valid jsx tokens_used components_used].
  unfold extract_tokens_from_spec, extract_components_from_spec.
  split; [done|]. split; [done|]. split; [done|].
  split; [apply NoDup_elements|]. split.
  { intros name. by rewrite elem_of_elements, extract_tokens_well_formed. }
  split; [apply NoDup_elements|].
  intros name. by rewrite elem_of_elements, extract_components_well_formed.
Qed.

Lemma rendered_metadata_exact_witness :
  ∃ r, render_design_specification example_renderer page = Ok r ∧
       ∀ name, name ∈ tokens_used r ↔ references_token page name.
Proof.
  destruct (render_design_specification example_renderer page) as [r|e]
    eqn:Hrender; [|vm_compute in Hrender; discriminate].
  exists r. split; [reflexivity|].
  apply (rendered_metadata_exact example_renderer page r Hrender).
Defined.

(** X4.  Against a design system without components (the key absent, or
    the list empty) no tree validates: validation and rendering raise the
    error of the root's type, and so does the compiler, with its own
    message. *)
Theorem no_components_no_valid_tree (ds : DesignSystem) (spec : SpecNode)
    (depth : nat) :
  default [] (ds_components ds) = [] →
  validate_specification (new_renderer ds) spec
    = Raise (ValueError ("Component '" +:+ spec_type spec
                         +:+ "' not in design system")) ∧
  render_design_specification (new_renderer ds) spec
    = Raise (ValueError ("Component '" +:+ spec_type spec
                         +:+ "' not in design system")) ∧
  specification_to_jsx (new_renderer ds) spec depth
    = Raise (ValueError ("Component '" +:+ spec_type spec
                         +:+ "' not found in design system")).
Proof.
  intros Hnone.
  assert (_component_exists (new_renderer ds) (spec_type spec) = false) as Hty.
  { unfold _component_exists, new_renderer, _index_components.
    cbn [components]. by rewrite Hnone. }
  assert (validate_specification (new_renderer ds) spec
          = Raise (ValueError ("Component '" +:+ spec_type spec
                               +:+ "' not in design system"))) as Hvalid.
  { unfold validate_specification. rewrite validate_node_eq. by rewrite Hty. }
  split; [done|]. split.
  - unfold render_design_specification. by rewrite Hvalid.
  - rewrite specification_to_jsx_eq. cbn zeta. by rewrite Hty.
Qed.

Lemma no_components_no_valid_tree_witness :
  validate_specification (new_renderer no_components_ds) button_go
    = Raise (ValueError "Component 'Button' not in design system").
Proof.
  apply (no_components_no_valid_tree no_components_ds button_go 0).
  reflexivity.
Defined.

(** ** The indices and the records they are built from *)

Lemma last_named_Some {A} (name_of : A → string) name (records : list A) r :
  last_named name_of name records = Some r →
  name_of r = name ∧ r ∈ records.
Proof.
  unfold last_named.
  intros [? Hin]%last_Some_elem_of%list_elem_of_filter. done.
Qed.

Lemma last_named_is_Some {A} (name_of : A → string) name (records : list A) :
  is_Some (last_named name_of name records) ↔
    ∃ r, r ∈ records ∧ name_of r = name.
Proof.
  split.
  - intros [r [? ?]%last_named_Some]. by exists r.
  - intros (r & Hin & Hname). unfold last_named.
    destruct (last _) eqn:Hlast; [by eexists|].
    apply last_None in Hlast.
    assert (r ∈ filter (λ r, name_of r = name) records) as Hr
      by by apply list_elem_of_filter.
    rewrite Hlast in Hr. by apply elem_of_nil in Hr.
Qed.

Lemma filter_none {A} (P : A → Prop) `{∀ x, Decision (P x)} (l : list A) :
  (∀ x, x ∈ l → ¬ P x) → filter P l = [].
Proof.
  induction l as [|x l IH]; intros Hl; [done|].
  rewrite filter_cons, decide_False by (apply Hl, list_elem_of_here).
  apply IH. intros y Hy. by apply Hl, list_elem_of_further.
Qed.

Lemma last_named_unique {A} (name_of : A → string) (records : list A) r :
  NoDup (name_of <$> records) → r ∈ records →
  last_named name_of (name_of r) records = Some r.
Proof.
  unfold last_named. induction records as [|r' records IH]; intros Hdup Hin.
  { by apply elem_of_nil in Hin. }
  apply NoDup_cons in Hdup as [Hfresh Hdup]. rewrite filter_cons.
  apply elem_of_cons in Hin as [->|Hin].
  - rewrite decide_True by done.
    assert (filter (λ r0, name_of r0 = name_of r') records = []) as ->; [|done].
    apply filter_none. intros r0 Hr0 Hname. apply Hfresh.
    rewrite <-Hname. apply list_elem_of_fmap. by exists r0.
  - rewrite decide_False; [by apply IH|]. intros Hname. apply Hfresh.
    rewrite Hname. apply list_elem_of_fmap. by exists r.
Qed.

Lemma lookup_index_tokens ds name :
  _index_tokens ds !! name = last_named token_name name (all_tokens ds).
Proof.
  rewrite _index_tokens_eq, lookup_foldl_insert, lookup_empty.
  by destruct (last_named _ _ _).
Qed.

Lemma lookup_index_components ds name :
  _index_components ds !! name
  = last_named component_name name (default [] (ds_components ds)).
Proof.
  unfold _index_components. rewrite lookup_foldl_insert, lookup_empty.
  by destruct (last_named _ _ _).
Qed.

Lemma dom_foldl_insert {A} (name_of : A → string) (records : list A) :
  dom (foldl (λ index r, <[name_of r := r]> index)
             (∅ : gmap string A) records)
  = list_to_set (name_of <$> records).
Proof.
  apply set_eq. intros name.
  rewrite elem_of_dom, lookup_foldl_insert, lookup_empty.
  rewrite elem_of_list_to_set, list_elem_of_fmap.
  destruct (last_named name_of name records) as [r|] eqn:Hlast.
  - apply last_named_Some in Hlast as [<- ?]. split; [by exists r|by eexists].
  - split; [by intros []|]. intros (r & -> & Hin).
    assert (is_Some (last_named name_of (name_of r) records)) as [? Hsome]
      by (apply last_named_is_Some; by exists r).
    congruence.
Qed.

(** X5.  An index holds a record under the name the record bears and no
    other, every record it holds is one of the design system, and its
    keys are exactly the names that occur in the design system. *)
Theorem index_entries_bear_their_key (ds : DesignSystem) (name : string) :
  (∀ t, _index_tokens ds !! name = Some t →
        token_name t = name ∧ t ∈ all_tokens ds) ∧
  (is_Some (_index_tokens ds !! name) ↔
     ∃ t, t ∈ all_tokens ds ∧ token_name t = name) ∧
  (∀ c, _index_components ds !! name = Some c →
        component_name c = name ∧ c ∈ default [] (ds_components ds)) ∧
  (is_Some (_index_components ds !! name) ↔
     ∃ c, c ∈ default [] (ds_components ds) ∧ component_name c = name).
Proof.
  rewrite lookup_index_tokens, lookup_index_components.
  split; [intros t; apply last_named_Some|].
  split; [apply last_named_is_Some|].
  split; [intros c; apply last_named_Some|apply last_named_is_Some].
Qed.

Lemma index_entries_bear_their_key_witness :
  token_name primary_500 = "primary/500" ∧ primary_500 ∈ all_tokens example_ds.
Proof.
  apply (proj1 (index_entries_bear_their_key example_ds "primary/500")).
  vm_compute. reflexivity.
Defined.

(** X6.  When no two tokens of the design system share a name, every
    token is found in the index under its name and the index has as many
    entries as the design system has tokens; the same for components. *)
Theorem index_round_trip (ds : DesignSystem) :
  (NoDup (token_name <$> all_tokens ds) →
   (∀ t, t ∈ all_tokens ds → _index_tokens ds !! token_name t = Some t) ∧
   size (_index_tokens ds) = length (all_tokens ds)) ∧
  (NoDup (component_name <$> default [] (ds_components ds)) →
   (∀ c, c ∈ default [] (ds_components ds) →
         _index_components ds !! component_name c = Some c) ∧
   size (_index_components ds) = length (default [] (ds_components ds))).
Proof.
  split; intros Hdup; split.
  - intros t Hin. rewrite lookup_index_tokens. by apply last_named_unique.
  - rewrite _index_tokens_eq, <-size_dom, dom_foldl_insert.
    by rewrite size_list_to_set, length_fmap.
  - intros c Hin. rewrite lookup_index_components. by apply last_named_unique.
  - unfold _index_components. rewrite <-size_dom, dom_foldl_insert.
    by rewrite size_list_to_set, length_fmap.
Qed.

Lemma index_round_trip_witness :
  (∀ t, t ∈ all_tokens plugin_ds →
        _index_tokens plugin_ds !! token_name t = Some t) ∧
  size (_index_tokens plugin_ds) = length (all_tokens plugin_ds).
Proof.
  apply (proj1 (index_round_trip plugin_ds)).
  vm_compute. repeat constructor; intros H;
    repeat (apply elem_of_cons in H as [H|H]; [discriminate H|]);
    by apply elem_of_nil in H.
Defined.

(** ** Names, keys and references *)

(** X7.  A string without ['/'] is never a reference, even when a token
    bears it as its name: as a prop value it passes validation whatever
    the indices hold, is written into the attributes as it is, and is
    never among the tokens used. *)
Theorem name_without_slash_is_literal (self : UniversalRenderer)
    (key s : string) :
  contains_slash s = false →
  validate_props self [(key, VStr s)] = Ok tt ∧
  _resolve_props self [(key, VStr s)]
    = Ok (key +:+ "=" +:+ dquote +:+ s +:+ dquote) ∧
  ∀ spec, s ∉ extract_tokens_from_spec self spec.
Proof.
  intros Hslash. split; [|split].
  - cbn [validate_props _is_token_reference]. by rewrite Hslash.
  - unfold _resolve_props.
    cbn [_resolve_props_loop _is_token_reference]. by rewrite Hslash.
  - intros spec. unfold extract_tokens_from_spec.
    rewrite elem_of_elements, elem_of_extract_tokens_from_node, elem_of_empty.
    intros [[]|[(node & k & _ & _ & Hs) _]]. congruence.
Qed.

Lemma name_without_slash_is_literal_witness :
  tokens (new_renderer larger_ds) !! "Brand" = Some brand ∧
  _resolve_props (new_renderer larger_ds) [("color", VStr "Brand")]
    = Ok ("color=" +:+ dquote +:+ "Brand" +:+ dquote).
Proof.
  split; [vm_compute; reflexivity|].
  apply (name_without_slash_is_literal (new_renderer larger_ds) "color" "Brand").
  reflexivity.
Defined.




(** X9.  Every name that the design system declares is accepted: a node
    whose type is the name of one of its components and whose prop value
    is the name of one of its tokens validates and renders. *)
Theorem declared_names_are_accepted (ds : DesignSystem) (c : Component)
    (t : Token) (key content : string) :
  c ∈ default [] (ds_components ds) →
  t ∈ all_tokens ds →
  validate_specification (new_renderer ds)
    (Spec (component_name c) [(key, VStr (token_name t))] [] content)
    = Ok true ∧
  ∃ r, render_design_specification (new_renderer ds)
         (Spec (component_name c) [(key, VStr (token_name t))] [] content)
       = Ok r.
Proof.
  intros Hc Ht.
  assert (validate_specification (new_renderer ds)
            (Spec (component_name c) [(key, VStr (token_name t))] [] content)
          = Ok true) as Hvalid.
  { apply validate_specification_well_formed. split.
    - intros node ->%list_elem_of_singleton. cbn [spec_type new_renderer components].
      rewrite lookup_index_components. apply last_named_is_Some. by exists c.
    - intros node k s ->%list_elem_of_singleton.
      cbn [spec_props new_renderer tokens].
      intros [= _ ->]%list_elem_of_singleton _.
      rewrite lookup_index_tokens. apply last_named_is_Some. by exists t. }
  split; [done|].
  destruct (compile_well_formed (new_renderer ds) _ 0
              (proj1 (validate_specification_well_formed _ _) Hvalid))
    as [markup Hmarkup].
  unfold render_design_specification. rewrite Hvalid.
  cbn [mbind result_bind]. rewrite Hmarkup. by eexists.
Qed.

Lemma declared_names_are_accepted_witness :
  validate_specification (new_renderer plugin_ds)
    (Spec "Button" [("color", VStr "Brand")] [] "Go") = Ok true.
Proof.
  apply (declared_names_are_accepted plugin_ds (component_named "Button")
           brand "color" "Go").
  - apply list_elem_of_here.
  - apply list_elem_of_further, list_elem_of_here.
Defined.

(** * Part VI: properties of the sandbox agent *)

Lemma mapM_Return {A B} (f : A → outcome B) (l : list A) :
  (∃ ys, mapM f l = Return ys) ↔ Forall (λ x, ∃ y, f x = Return y) l.
Proof.
  induction l as [|x l IH]; cbn [mapM].
  - split; [constructor|by eexists].
  - split.
    + intros [ys Hys]. destruct (f x) as [y|] eqn:Hx; [|done].
      cbn [mbind outcome_bind] in Hys.
      destruct (mapM f l) as [k|] eqn:Hl; [|done].
      constructor; [by eexists|]. apply IH. by eexists.
    + intros [[y ->] [k ->]%IH]%Forall_cons. by eexists.
Qed.

Lemma mapM_Throw {A B} (f : A → outcome B) (l : list A) e :
  mapM f l = Throw e → ∃ x, x ∈ l ∧ f x = Throw e.
Proof.
  induction l as [|x l IH]; cbn [mapM]; [done|].
  destruct (f x) as [y|e'] eqn:Hx; cbn [mbind outcome_bind].
  - destruct (mapM f l) as [k|e'] eqn:Hl; [done|]. intros [= ->].
    destruct IH as (x' & ? & ?); [done|]. exists x'.
    split; [by apply list_elem_of_further|done].
  - intros [= ->]. exists x. split; [apply list_elem_of_here|done].
Qed.

Lemma color_line_Return t :
  (∃ line, color_line t = Return line) ↔ has_value t.
Proof.
  unfold color_line, has_value, subscript.
  change (token_get t "name") with (Some (VStr (token_name t))).
  cbn [mbind outcome_bind].
  destruct (token_get t "value"); split; intros [? ?]; by eauto.
Qed.

Lemma color_line_Throw t e :
  color_line t = Throw e → e = KeyError "value".
Proof.
  unfold color_line, subscript.
  change (token_get t "name") with (Some (VStr (token_name t))).
  cbn [mbind outcome_bind]. destruct (token_get t "value"); by intros [= <-].
Qed.

Lemma typography_line_Return t :
  (∃ line, typography_line t = Return line) ↔ has_font t.
Proof.
  unfold typography_line, has_font, subscript.
  change (token_get t "name") with (Some (VStr (token_name t))).
  cbn [mbind outcome_bind].
  split.
  - intros [line Hline].
    destruct (token_get t "fontFamily"), (token_get t "fontSize"),
      (token_get t "fontWeight"); cbn [mbind outcome_bind] in Hline;
      try discriminate Hline.
    repeat split; by eexists.
  - intros ([a ->] & [b ->] & [c ->]). by eexists.
Qed.

Lemma typography_line_Throw t e :
  typography_line t = Throw e →
  e = KeyError "fontFamily" ∨ e = KeyError "fontSize"
  ∨ e = KeyError "fontWeight".
Proof.
  unfold typography_line, subscript.
  change (token_get t "name") with (Some (VStr (token_name t))).
  cbn [mbind outcome_bind].
  destruct (token_get t "fontFamily"), (token_get t "fontSize"),
    (token_get t "fontWeight"); cbn [mbind outcome_bind];
    intros [= <-]; auto.
Qed.

Lemma component_lines_Return (l : list Component) :
  ∃ lines, mapM component_line l = Return lines.
Proof. apply mapM_Return, Forall_forall. intros c _. by eexists. Qed.

Lemma format_eq ds :
  _format_design_system_for_llm ds =
    colors ← mapM color_line (token_collection ds "colors");
    typo ← mapM typography_line (token_collection ds "typography");
    comp ← mapM component_line (default [] (ds_components ds));
    Return (join (newline +:+ newline)
              ["COLORS:" +:+ newline +:+ join newline colors;
               "TYPOGRAPHY:" +:+ newline +:+ join newline typo;
               "COMPONENTS:" +:+ newline +:+ join newline comp]).
Proof. reflexivity. Qed.

(** X10.  The context for the model can be written exactly when every
    colour has a [value] and every text style has a [fontFamily], a
    [fontSize] and a [fontWeight].  Otherwise formatting raises the
    [KeyError] of one of these four keys, and [generate_screen] raises it
    too, whatever the model and the decoder would have given. *)
Theorem format_needs_every_field (ds : DesignSystem) :
  ((∃ ctx, _format_design_system_for_llm ds = Return ctx) ↔
     Forall has_value (default [] (ds_tokens ds !! "colors")) ∧
     Forall has_font (default [] (ds_tokens ds !! "typography"))) ∧
  (∀ e, _format_design_system_for_llm ds = Throw e →
     (e ∈ [KeyError "value"; KeyError "fontFamily"; KeyError "fontSize";
           KeyError "fontWeight"]) ∧
     ∀ llm_apredict json_loads prompt,
       generate_screen llm_apredict json_loads (new_agent ds) prompt
       = Throw e).
Proof.
  rewrite format_eq. unfold token_collection. split.
  - split.
    + intros [ctx Hctx].
      destruct (mapM color_line _) as [colors|] eqn:Hcolors; [|done].
      cbn [mbind outcome_bind] in Hctx.
      destruct (mapM typography_line _) as [typo|] eqn:Htypo; [|done].
      split.
      * eapply Forall_impl;
          [apply (mapM_Return color_line); by eexists|].
        intros t. apply color_line_Return.
      * eapply Forall_impl;
          [apply (mapM_Return typography_line); by eexists|].
        intros t. apply typography_line_Return.
    + intros [Hcolors Htypo].
      assert (∃ colors, mapM color_line (default [] (ds_tokens ds !! "colors"))
                        = Return colors) as [colors ->].
      { apply mapM_Return. eapply Forall_impl; [done|].
        intros t. apply color_line_Return. }
      assert (∃ typo, mapM typography_line
                        (default [] (ds_tokens ds !! "typography"))
                      = Return typo) as [typo ->].
      { apply mapM_Return. eapply Forall_impl; [done|].
        intros t. apply typography_line_Return. }
      destruct (component_lines_Return (default [] (ds_components ds)))
        as [comp ->]. by eexists.
  - intros e He. split.
    + destruct (mapM color_line _) as [colors|e'] eqn:Hcolors.
      * cbn [mbind outcome_bind] in He.
        destruct (mapM typography_line _) as [typo|e'] eqn:Htypo.
        -- cbn [mbind outcome_bind] in He.
           by destruct (component_lines_Return (default [] (ds_components ds)))
             as [comp Hcomp]; rewrite Hcomp in He.
        -- injection He as ->.
           apply mapM_Throw in Htypo as (t & _ & Ht).
           apply typography_line_Throw in Ht as [Ht|[Ht|Ht]]; subst e;
             repeat first [apply list_elem_of_here|apply list_elem_of_further].
      * injection He as ->. apply mapM_Throw in Hcolors as (t & _ & Ht).
        apply color_line_Throw in Ht. subst e. apply list_elem_of_here.
    + intros llm_apredict json_loads prompt. unfold generate_screen.
      cbn [new_agent agent_design_system]. rewrite format_eq.
      unfold token_collection. by rewrite He.
Qed.

Lemma format_needs_every_field_witness :
  ∃ ctx, _format_design_system_for_llm plugin_ds = Return ctx.
Proof.
  apply (proj1 (format_needs_every_field plugin_ds)).
  split; repeat constructor; vm_compute; by eexists.
Defined.

Section AgentProperties.
Variable llm_apredict : string → outcome string.
Variable json_loads : string → outcome SpecNode.

Lemma generate_screen_Return ds prompt g :
  generate_screen llm_apredict json_loads (new_agent ds) prompt = Return g →
  ∃ rendered,
    render_design_specification (new_renderer ds) (gen_design g)
      = Ok rendered ∧
    g = {| gen_status := "success";
           gen_design := gen_design g;
           gen_code := jsx rendered;
           gen_tokens_used := tokens_used rendered;
           gen_components_used := components_used rendered;
           gen_prompt := prompt |}.
Proof.
  unfold generate_screen. cbn [new_agent agent_design_system agent_renderer].
  destruct (_format_design_system_for_llm ds) as [ctx|]; [|done].
  cbn [mbind outcome_bind].
  destruct (llm_apredict _) as [response|]; [|done]. cbn [mbind outcome_bind].
  destruct (json_loads response) as [spec|]; [|done]. cbn [mbind outcome_bind].
  destruct (validate_specification (new_renderer ds) spec); [|done].
  cbn [from_renderer mbind outcome_bind].
  destruct (render_design_specification (new_renderer ds) spec)
    as [rendered|] eqn:Hrender; [|done].
  cbn [mbind outcome_bind]. intros [= <-]. by exists rendered.
Qed.

End AgentProperties.

(** X11.  Whatever the model answers and however it is decoded, a design
    that [generate_screen] returns is one that the design system allows:
    the type of each of its nodes is the name of a component of the design
    system, each of its token-shaped prop values is the name of a token of
    the design system, the code returned is the markup of the design, and
    the prompt is handed back. *)
Theorem generated_design_uses_declared_names
    (llm_apredict : string → outcome string)
    (json_loads : string → outcome SpecNode)
    (ds : DesignSystem) (prompt : string) (g : Generated) :
  generate_screen llm_apredict json_loads (new_agent ds) prompt = Return g →
  (∀ node, node ∈ nodes (gen_design g) →
     ∃ c, c ∈ default [] (ds_components ds)
          ∧ component_name c = spec_type node) ∧
  (∀ node key s, node ∈ nodes (gen_design g) →
     (key, VStr s) ∈ spec_props node → contains_slash s = true →
     ∃ t, t ∈ all_tokens ds ∧ token_name t = s) ∧
  specification_to_jsx (new_renderer ds) (gen_design g) 0 = Ok (gen_code g) ∧
  gen_status g = "success" ∧ gen_prompt g = prompt.
Proof.
  intros (rendered & Hrender & ->)%generate_screen_Return.
  cbn [gen_design gen_code gen_status gen_prompt].
  unfold render_design_specification in Hrender.
  destruct (validate_specification (new_renderer ds) (gen_design g))
    as [[]|] eqn:Hvalid; [|by rewrite validate_specification_checks in Hvalid;
                              destruct (first_failure _ _)|done].
  apply validate_specification_well_formed in Hvalid as [Hc Ht].
  cbn [mbind result_bind] in Hrender.
  destruct (specification_to_jsx _ _ 0) as [markup|]; [|done].
  injection Hrender as <-. cbn [jsx].
  split; [|split; [|done]].
  - intros node Hnode. apply last_named_is_Some.
    rewrite <-lookup_index_components. by apply Hc.
  - intros node key s Hnode Hin Hslash. apply last_named_is_Some.
    rewrite <-lookup_index_tokens. by apply (Ht node key).
Qed.

Lemma generated_design_uses_declared_names_witness :
  specification_to_jsx (new_renderer plugin_ds) page 0
  = Ok ("<Container background=" +:+ dquote +:+ "#3B82F6" +:+ dquote +:+ ">"
        +:+ newline +:+ "  <Button backgroundColor=" +:+ dquote +:+ "#3B82F6"
        +:+ dquote +:+ ">Go</Button>" +:+ newline +:+ "  <Text color="
        +:+ dquote +:+ "#3B82F6" +:+ dquote +:+ ">Hi</Text>" +:+ newline
        +:+ "</Container>").
Proof.
  refine (proj1 (proj2 (proj2
    (generated_design_uses_declared_names
       (λ _, Return "{}") (λ _, Return page) plugin_ds "a page"
       {| gen_status := "success"; gen_design := page;
          gen_code := _; gen_tokens_used := ["primary/500"];
          gen_components_used := ["Container"; "Button"; "Text"];
          gen_prompt := "a page" |} _)))).
  vm_compute. reflexivity.
Defined.

(** X12.  Once the context is written and the model's answer is decoded
    to a tree, [generate_screen] returns exactly when rendering the tree
    returns, with the markup and the names that rendering gives, and
    raises the renderer's error otherwise: its own call of validation
    before rendering changes nothing. *)
Theorem generate_screen_follows_render
    (llm_apredict : string → outcome string)
    (json_loads : string → outcome SpecNode)
    (ds : DesignSystem) (prompt ctx response : string) (spec : SpecNode) :
  _format_design_system_for_llm ds = Return ctx →
  llm_apredict (constraint_prompt ctx prompt) = Return response →
  json_loads response = Return spec →
  generate_screen llm_apredict json_loads (new_agent ds) prompt =
    match render_design_specification (new_renderer ds) spec with
    | Ok rendered =>
        Return {| gen_status := "success";
                  gen_design := spec;
                  gen_code := jsx rendered;
                  gen_tokens_used := tokens_used rendered;
                  gen_components_used := components_used rendered;
                  gen_prompt := prompt |}
    | Raise e => Throw (Renderer e)
    end.
Proof.
  intros Hctx Hresponse Hspec. unfold generate_screen.
  cbn [new_agent agent_design_system agent_renderer].
  rewrite Hctx. cbn [mbind outcome_bind]. rewrite Hresponse.
  cbn [mbind outcome_bind]. rewrite Hspec. cbn [mbind outcome_bind].
  unfold render_design_specification.
  destruct (validate_specification (new_renderer ds) spec); [|done].
  cbn [from_renderer mbind outcome_bind result_bind].
  by destruct (specification_to_jsx (new_renderer ds) spec 0).
Qed.

Lemma generate_screen_follows_render_witness :
  generate_screen (λ _, Return "{}") (λ _, Return toggle_accent)
    (new_agent plugin_ds) "a toggle"
  = Throw (Renderer (ValueError "Component 'Toggle' not in design system")).
Proof.
  refine (generate_screen_follows_render (λ _, Return "{}")
            (λ _, Return toggle_accent) plugin_ds "a toggle" _ "{}"
            toggle_accent _ _ _).
  - vm_compute. reflexivity.
  - reflexivity.
  - reflexivity.
Defined.

(** * Part VII: the markup of a subtree *)

Lemma string_app_nil_r s : s +:+ "" = s.
Proof.
  induction s as [|c s IH]; [done|].
  change (String c (s +:+ "") = String c s). by rewrite IH.
Qed.

Lemma occurs_in_refl s : occurs_in s s.
Proof. exists "", "". by rewrite string_app_nil_r. Qed.

Lemma occurs_in_trans s1 s2 s3 :
  occurs_in s1 s2 → occurs_in s2 s3 → occurs_in s1 s3.
Proof.
  intros (b1 & a1 & ->) (b2 & a2 & ->). exists (b2 +:+ b1), (a1 +:+ a2).
  by rewrite <-!(assoc_L String.app).
Qed.

Lemma occurs_in_join sep (l1 l2 : list string) x :
  occurs_in x (join sep (l1 ++ x :: l2)).
Proof.
  induction l1 as [|y l1 IH].
  - destruct l2 as [|z l2]; [apply occurs_in_refl|].
    exists "", (sep +:+ join sep (z :: l2)). done.
  - apply (occurs_in_trans _ (join sep (l1 ++ x :: l2))); [done|].
    change ((y :: l1) ++ x :: l2)%list with (y :: (l1 ++ x :: l2))%list.
    destruct (l1 ++ x :: l2)%list as [|z l] eqn:Hl.
    { by destruct l1. }
    exists (y +:+ sep), "".
    change (join sep (y :: z :: l)) with (y +:+ sep +:+ join sep (z :: l)).
    by rewrite string_app_nil_r, <-!(assoc_L String.app).
Qed.

(** X13.  The markup of a tree that validates holds, as it is, the markup
    of each of its subtrees compiled at the depth where the subtree
    stands. *)
Theorem subtree_markup_occurs (self : UniversalRenderer) (spec node : SpecNode)
    (depth d : nat) :
  validate_specification self spec = Ok true →
  (node, d) ∈ nodes_at spec depth →
  ∃ markup part,
    specification_to_jsx self spec depth = Ok markup ∧
    specification_to_jsx self node d = Ok part ∧
    occurs_in part markup.
Proof.
  intros Hwf%validate_specification_well_formed. revert depth Hwf.
  induction spec as [ty props children content IH] using SpecNode_ind.
  intros depth Hwf Hin.
  destruct (compile_well_formed self _ depth Hwf) as [markup Hmarkup].
  exists markup.
  change (nodes_at (Spec ty props children content) depth)
    with ((Spec ty props children content, depth)
            :: (children ≫= λ child, nodes_at child (S depth))) in Hin.
  apply elem_of_cons in Hin as [[= -> ->]|Hin].
  { exists markup. split; [done|]. split; [done|]. apply occurs_in_refl. }
  apply list_elem_of_bind in Hin as (child & Hin & Hchild).
  assert (well_formed self child) as Hwfc.
  { apply (well_formed_node self (Spec ty props children content)); [done|].
    apply (nodes_child _ child); [done|apply nodes_self]. }
  rewrite Forall_forall in IH.
  destruct (IH child Hchild (S depth) Hwfc Hin)
    as (line & part & Hline & Hpart & Hoccurs).
  exists part. split; [done|]. split; [done|].
  apply (occurs_in_trans _ line); [done|].
  apply validate_node_well_formed in Hwf.
  destruct (validated_parts self _ (S depth) Hwf)
    as (Hty & [attrs Hattrs] & [lines Hlines]).
  cbn [spec_type spec_props spec_children] in *.
  apply compile_children_Forall2 in Hlines.
  rewrite (compile_with_children self _ depth attrs lines) in Hmarkup;
    [|done|done| |done].
  2:{ cbn [spec_children]. intros ->. by apply elem_of_nil in Hchild. }
  injection Hmarkup as <-.
  apply list_elem_of_split in Hchild as (c1 & c2 & ->).
  apply Forall2_app_inv_l in Hlines as (k1 & k2' & _ & Hk & ->).
  apply Forall2_cons_inv_l in Hk as (line' & k2 & Hline' & _ & ->).
  assert (line' = line) as -> by congruence.
  eapply occurs_in_trans; [apply (occurs_in_join newline k1 k2 line)|].
  exists (repeat_str "  " depth +:+ opening_tag ty attrs +:+ newline),
    (newline +:+ repeat_str "  " depth +:+ closing_tag ty).
  by rewrite <-!(assoc_L String.app).
Qed.

Lemma subtree_markup_occurs_witness :
  ∃ markup part,
    specification_to_jsx example_renderer page 0 = Ok markup ∧
    specification_to_jsx example_renderer button_go 1 = Ok part ∧
    occurs_in part markup.
Proof.
  apply (subtree_markup_occurs example_renderer page button_go 0 1).
  - vm_compute. reflexivity.
  - apply list_elem_of_further, list_elem_of_here.
Defined.
